(** * Gate-layout templates of [pennylane/templates/layers.py]

    A shallow embedding of the layer templates ([StronglyEntanglingLayers],
    [StronglyEntanglingLayer], [RandomLayer], [Interferometer]) and the
    properties of their gate layouts.

    Python integers are modelled as [Z], sequences as [list], the operation
    queue of the enclosing QNode as a [list operation] threaded through a
    small state-and-exception monad, and the calls to [np.random] as reads
    from an explicit stream of draws.

    The constructors of the operations live outside this module.  What is
    modelled of them is that a gate handed the same wire twice is refused
    with a [ValueError]; this is checked where the module itself can pick
    one position of the wire sequence twice (the imprimitive gates of
    [StronglyEntanglingLayer]).  Everywhere else the wires of a gate come
    from different positions of the sequence, whose labels are taken to be
    pairwise different, as the wires of a device are. *)

From Stdlib Require Import ZArith List Bool String QArith Lia Permutation.
Import ListNotations.

Open Scope Z_scope.

(** ** Python exceptions raised by the module *)

(** The calls into other libraries that can raise a [ValueError] of that
    library's own; its text is the library's and is not modelled. *)
Inductive library_call : Type :=
| NpRandomChoice    (* np.random.choice(a) on an empty a *)
| OperationInit.    (* the constructor of an operation given the same wire twice *)

Inductive exn : Type :=
| ValueError (msg : string)                (* raised by this module, with its text *)
| QuantumFunctionError (msg : string)
| IndexError
| LibraryValueError (call : library_call). (* a ValueError raised inside [call] *)

Definition msg_sel_wires : string :=
  "StronglyEntanglingLayer requires at least two wires or subsystems to apply the imprimitive gates.".

Definition msg_rl_wires : string :=
  "RandomLayer requires at least two wires or subsystems to apply the imprimitive gates.".

Definition msg_beamsplitter : string :=
  "The beamsplitter parameter influences the circuit architecture and can not be passed as a QNode parameter.".

Definition msg_mesh : string :=
  "The mesh parameter influences the circuit architecture and can not be passed as a QNode parameter.".

(** ** Python values used as keyword selectors ([mesh], [beamsplitter]) *)

Inductive pyval : Type :=
| PyStr (s : string)       (* a string literal *)
| PyVariable               (* an instance of pennylane.variable.Variable *)
| PyOther.                 (* any other object *)

Definition isinstance_Variable (v : pyval) : bool :=
  match v with PyVariable => true | _ => false end.

(** [v == 'literal'] *)
Definition py_eq_str (v : pyval) (s : string) : bool :=
  match v with PyStr t => String.eqb t s | _ => false end.

(** ** Integer sequences *)

Definition len {A : Type} (l : list A) : Z := Z.of_nat (List.length l).

(** [range(start, stop, step)] for a positive [step]. *)
Definition range3 (start stop step : Z) : list Z :=
  map (fun i => start + step * Z.of_nat i)
      (seq 0 (Z.to_nat ((stop - start + step - 1) / step))).

(** [range(n)] *)
Definition range (n : Z) : list Z := range3 0 n 1.

Fixpoint enumerate_from {A : Type} (i : Z) (l : list A) : list (Z * A) :=
  match l with
  | [] => []
  | x :: l' => (i, x) :: enumerate_from (i + 1) l'
  end.

(** [enumerate(l)] *)
Definition enumerate {A : Type} (l : list A) : list (Z * A) := enumerate_from 0 l.

(** [l[i]] on a sequence: negative indices count from the end, anything
    outside [-len(l) .. len(l)-1] is an [IndexError] ([None] here). *)
Definition py_index {A : Type} (l : list A) (i : Z) : option A :=
  if i <? 0
  then (if - len l <=? i then nth_error l (Z.to_nat (len l + i)) else None)
  else nth_error l (Z.to_nat i).

Section Templates.

(** Wire labels, gate parameters and gate classes are opaque to the
    templates; [zero] is the literal [0] passed to [Beamsplitter]. *)
Variables (W R G : Type).
Variable zero : R.

(** The [wires] keyword argument: a bare wire or a sequence of wires. *)
Inductive wires_t : Type :=
| One (w : W)
| Many (ws : list W).

(** Operations queued by the templates. *)
Inductive operation : Type :=
| Rot (a b c : R) (wires : wires_t)
| Rotation (p : R) (wires : wires_t)
| Beamsplitter (t p : R) (wires : wires_t)
| Gate1 (g : G) (x : R) (wires : wires_t)   (* gate(weights[i], wires=wire) *)
| Gate2 (g : G) (wires : wires_t).          (* imprimitive(wires=[...]) *)

(** *** The queue-and-exception monad *)

Definition M (A : Type) : Type := list operation -> list operation * (exn + A).

Definition ret {A : Type} (a : A) : M A := fun q => (q, inr a).

Definition bind {A B : Type} (m : M A) (f : A -> M B) : M B :=
  fun q => match m q with
           | (q', inl e) => (q', inl e)
           | (q', inr a) => f a q'
           end.

Definition raise {A : Type} (e : exn) : M A := fun q => (q, inl e).

(** An operation whose constructor accepts its arguments is appended to the
    queue.  [emit] is used where the wires handed to the constructor come
    from different positions of the wire sequence; the one call that can be
    handed a position twice goes through [apply_imprimitive] below. *)
Definition emit (o : operation) : M unit := fun q => (q ++ [o], inr tt).

Definition getitem {A : Type} (l : list A) (i : Z) : M A :=
  match py_index l i with
  | Some x => ret x
  | None => raise IndexError
  end.

(** [m[i, j]] on a two-dimensional array. *)
Definition getitem2 {A : Type} (m : list (list A)) (i j : Z) : M A :=
  match py_index m i with
  | Some row => getitem row j
  | None => raise IndexError
  end.

(** A [for] loop whose body updates the loop-carried variables [s]. *)
Fixpoint for_ {X S : Type} (xs : list X) (body : X -> S -> M S) (s : S) : M S :=
  match xs with
  | [] => ret s
  | x :: xs' => bind (body x s) (for_ xs' body)
  end.

End Templates.

Arguments One {W} w.
Arguments Many {W} ws.
Arguments Rot {W R G} a b c wires.
Arguments Rotation {W R G} p wires.
Arguments Beamsplitter {W R G} t p wires.
Arguments Gate1 {W R G} g x wires.
Arguments Gate2 {W R G} g wires.
Arguments ret {W R G A} a.
Arguments bind {W R G A B} m f.
Arguments raise {W R G A} e.
Arguments emit {W R G} o.
Arguments getitem {W R G A} l i.
Arguments getitem2 {W R G A} m i j.
Arguments for_ {W R G X S} xs body s.

Declare Scope py_scope.
Delimit Scope py_scope with py.
Notation "x <- m ;; k" := (bind m (fun x => k))
  (at level 100, m at next level, right associativity) : py_scope.
Notation "m ;;; k" := (bind m (fun _ => k))
  (at level 100, right associativity) : py_scope.
Open Scope py_scope.

Section Layers.

Variables (W R G : Type).
Variable zero : R.

(** [a == b] on wire labels. *)
Variable W_eq_dec : forall a b : W, {a = b} + {a <> b}.

Local Abbreviation op := (operation W R G).
Local Abbreviation Mq := (M W R G).

(** [imprimitive(wires=[a, b])] where [a] and [b] may be the same wire
    (line 134): the constructor of an operation refuses wires that are not
    pairwise different with a [ValueError], and nothing is queued. *)
Definition apply_imprimitive (imprimitive : G) (a b : W) : Mq unit :=
  if W_eq_dec a b then raise (LibraryValueError OperationInit)
  else emit (Gate2 imprimitive (Many [a; b])).

(** *** [StronglyEntanglingLayer] (lines 102-134)

    [wires] is taken to be a sequence, [weights] a two-dimensional array of
    which only [weights[i, j]] is read, and [r] any integer. *)

Definition StronglyEntanglingLayer
    (weights : list (list R)) (r : Z) (imprimitive : G) (wires : list W) : Mq unit :=
  if len wires <? 2 then raise (ValueError msg_sel_wires)
  else
    for_ (enumerate wires)
         (fun '(i, wire) _ =>
            a <- getitem2 weights i 0 ;;
            b <- getitem2 weights i 1 ;;
            c <- getitem2 weights i 2 ;;
            emit (Rot a b c (One wire))) tt ;;;
    let num_wires := len wires in
    for_ (range num_wires)
         (fun i _ =>
            w1 <- getitem wires i ;;
            w2 <- getitem wires ((i + r) mod num_wires) ;;
            apply_imprimitive imprimitive w1 w2) tt.

(** *** [StronglyEntanglingLayers] (lines 80-99) *)

Definition StronglyEntanglingLayers
    (weights : list (list (list R))) (ranges : option (list Z))
    (imprimitive : G) (wires : list W) : Mq unit :=
  let ranges :=
    match ranges with
    | None => repeat 1 (List.length weights)
    | Some rs => rs
    end in
  for_ (combine weights ranges)
       (fun '(block_weights, block_range) _ =>
          StronglyEntanglingLayer block_weights block_range imprimitive wires) tt.

(** *** [Interferometer] (lines 289-422) *)

(** One two-mode element, lines 401-405 and 413-417. *)
Definition two_mode_element
    (beamsplitter : pyval) (theta phi : list R) (n : Z) (w1 w2 : W) : Mq unit :=
  if py_eq_str beamsplitter "clements" then
    p <- getitem phi n ;;
    emit (Rotation p (Many [w1])) ;;;
    t <- getitem theta n ;;
    emit (Beamsplitter t zero (Many [w1; w2]))
  else
    t <- getitem theta n ;;
    p <- getitem phi n ;;
    emit (Beamsplitter t p (Many [w1; w2])).

Definition Interferometer
    (theta phi varphi : list R) (wires : wires_t W)
    (mesh beamsplitter : pyval) : Mq unit :=
  if isinstance_Variable beamsplitter then raise (QuantumFunctionError msg_beamsplitter)
  else if isinstance_Variable mesh then raise (QuantumFunctionError msg_mesh)
  else
    let w := match wires with One x => [x] | Many ws => ws end in
    let N := len w in
    if N =? 1 then
      p <- getitem varphi 0 ;;
      w0 <- getitem w 0 ;;
      emit (Rotation p (One w0))
    else
      (if py_eq_str mesh "rectangular" then
         for_ (range N)
              (fun l n =>
                 for_ (enumerate (combine (removelast w) (tl w)))
                      (fun '(k, (w1, w2)) n =>
                         if negb ((l + k) mod 2 =? 1) then
                           two_mode_element beamsplitter theta phi n w1 w2 ;;;
                           ret (n + 1)
                         else ret n) n) 0
       else if py_eq_str mesh "triangular" then
         for_ (range (2 * N - 3))
              (fun l n =>
                 for_ (range3 (Z.abs (l + 1 - (N - 1))) (N - 1) 2)
                      (fun k n =>
                         w1 <- getitem w k ;;
                         w2 <- getitem w (k + 1) ;;
                         two_mode_element beamsplitter theta phi n w1 w2 ;;;
                         ret (n + 1)) n) 0
       else ret 0) ;;;
      for_ (enumerate varphi)
           (fun '(i, p) _ =>
              wi <- getitem w i ;;
              emit (Rotation p (Many [wi]))) tt.

(** *** [RandomLayer] (lines 160-201) *)

(** What [np.random] hands out during one pass through the body of the
    [while] loop: the value of [np.random.random()], the positions picked
    by the two calls to [np.random.choice], and the reordering applied by
    [np.random.permutation]. *)
Record draw : Type := mkDraw {
  d_u : Q;
  d_gate : nat;
  d_wire : nat;
  d_perm : list W -> list W
}.

(** A draw as [np.random] can produce it on the wire sequence [wires]. *)
Definition draw_ok (wires : list W) (d : draw) : Prop :=
  (0 <= d_u d)%Q /\ (d_u d < 1)%Q /\ Permutation (d_perm d wires) wires.

(** [np.random.choice(a)], with the position supplied by the draw. *)
Definition choice {A : Type} (a : list A) (pos : nat) : Mq A :=
  match nth_error a (pos mod List.length a)%nat with
  | Some x => ret x
  | None => raise (LibraryValueError NpRandomChoice)
  end.

(** [u > ratio_imprim] *)
Definition exceeds (u ratio_imprim : Q) : bool := negb (Qle_bool u ratio_imprim).

(** The body of the [while] loop, lines 193-201; returns the new [i]. *)
Definition RandomLayer_body
    (weights : list R) (ratio_imprim : Q) (imprimitive : G)
    (rotations : list G) (wires : list W) (d : draw) (i : Z) : Mq Z :=
  if exceeds (d_u d) ratio_imprim then
    gate <- choice rotations (d_gate d) ;;
    wire <- choice wires (d_wire d) ;;
    x <- getitem weights i ;;
    emit (Gate1 gate x (One wire)) ;;;
    ret (i + 1)
  else
    let on_wires := firstn 2 (d_perm d wires) in
    emit (Gate2 imprimitive (Many on_wires)) ;;;
    ret i.

(** The [while] loop, run for at most [fuel] passes; the pass number [t]
    selects the draw.  [None] means the loop is still running. *)
Fixpoint RandomLayer_loop
    (fuel : nat) (weights : list R) (ratio_imprim : Q) (imprimitive : G)
    (rotations : list G) (wires : list W) (rng : nat -> draw)
    (t : nat) (i : Z) (q : list op) : option (list op * (exn + Z)) :=
  if i <? len weights then
    match fuel with
    | O => None
    | S fuel' =>
        match RandomLayer_body weights ratio_imprim imprimitive rotations wires
                               (rng t) i q with
        | (q', inl e) => Some (q', inl e)
        | (q', inr i') =>
            RandomLayer_loop fuel' weights ratio_imprim imprimitive rotations wires
                             rng (S t) i' q'
        end
    end
  else Some (q, inr i).

Definition RandomLayer
    (fuel : nat) (weights : list R) (ratio_imprim : Q) (imprimitive : G)
    (rotations : list G) (wires : list W) (rng : nat -> draw)
    (q : list op) : option (list op * (exn + unit)) :=
  if len wires <? 2 then Some (q, inl (ValueError msg_rl_wires))
  else
    match RandomLayer_loop fuel weights ratio_imprim imprimitive rotations wires
                           rng 0 0 q with
    | None => None
    | Some (q', inl e) => Some (q', inl e)
    | Some (q', inr _) => Some (q', inr tt)
    end.

End Layers.

Arguments apply_imprimitive {W R G} W_eq_dec imprimitive a b.
Arguments StronglyEntanglingLayer {W R G} W_eq_dec weights r imprimitive wires.
Arguments StronglyEntanglingLayers {W R G} W_eq_dec weights ranges imprimitive wires.
Arguments two_mode_element {W R G} zero beamsplitter theta phi n w1 w2.
Arguments Interferometer {W R G} zero theta phi varphi wires mesh beamsplitter.

Arguments mkDraw {W} d_u d_gate d_wire d_perm.
Arguments d_u {W} d.
Arguments d_gate {W} d.
Arguments d_wire {W} d.
Arguments d_perm {W} d.
Arguments draw_ok {W} wires d.
Arguments choice {W R G A} a pos.
Arguments RandomLayer_body {W R G} weights ratio_imprim imprimitive rotations wires d i.
Arguments RandomLayer_loop {W R G} fuel weights ratio_imprim imprimitive rotations wires rng t i q.
Arguments RandomLayer {W R G} fuel weights ratio_imprim imprimitive rotations wires rng q.

(** ** Specification-side layouts

    The placements of the two meshes, written after the prose description:
    a placement [(l, k)] puts a two-mode element on the pair of wires
    [(w[k], w[k+1])] in layer [l]. *)

Definition rectangular_layer (N l : Z) : list Z :=
  filter (fun k => negb ((l + k) mod 2 =? 1)) (range (N - 1)).

Definition rectangular_placements (N : Z) : list (Z * Z) :=
  flat_map (fun l => map (pair l) (rectangular_layer N l)) (range N).

Definition triangular_layer (N l : Z) : list Z :=
  range3 (Z.abs (l + 1 - (N - 1))) (N - 1) 2.

Definition triangular_placements (N : Z) : list (Z * Z) :=
  flat_map (fun l => map (pair l) (triangular_layer N l)) (range (2 * N - 3)).

Section Layouts.

Variables (W R G : Type).
Variable zero : R.

Local Abbreviation op := (operation W R G).

(** The operations of one two-mode element under a beamsplitter convention. *)
Definition element_ops (beamsplitter : pyval) (t p : R) (w1 w2 : W) : list op :=
  if py_eq_str beamsplitter "clements"
  then [Rotation p (Many [w1]); Beamsplitter t zero (Many [w1; w2])]
  else [Beamsplitter t p (Many [w1; w2])].

(** The operations of a list of placements, the [n]-th placement taking
    [theta[n]] and [phi[n]], counting from [n0]. *)
Definition mesh_ops (beamsplitter : pyval) (theta phi : list R) (w : list W)
    (r0 : R) (d : W) (n0 : Z) (ps : list (Z * Z)) : list op :=
  flat_map (fun '(n, (_, k)) =>
              element_ops beamsplitter (nth (Z.to_nat n) theta r0) (nth (Z.to_nat n) phi r0)
                          (nth (Z.to_nat k) w d) (nth (Z.to_nat (k + 1)) w d))
           (enumerate_from n0 ps).

(** The final local phase shifts, one per entry of [varphi] that has a wire. *)
Definition output_ops (varphi : list R) (w : list W) : list op :=
  map (fun '(p, wi) => Rotation p (Many [wi])) (combine varphi w).

Definition is_Beamsplitter (o : op) : bool :=
  match o with Beamsplitter _ _ _ => true | _ => false end.

Definition is_Gate1 (o : op) : bool :=
  match o with Gate1 _ _ _ => true | _ => false end.

Definition is_Gate2 (o : op) : bool :=
  match o with Gate2 _ _ => true | _ => false end.

Definition count (f : op -> bool) (q : list op) : Z := len (filter f q).

(** The operations of one strongly entangling layer. *)
Definition rot_ops (weights : list (list R)) (wires : list W) (r0 : R) : list op :=
  map (fun '(i, wire) =>
         let row := nth (Z.to_nat i) weights [] in
         Rot (nth 0 row r0) (nth 1 row r0) (nth 2 row r0) (One wire))
      (enumerate wires).

Definition entangler_ops (r : Z) (imprimitive : G) (wires : list W) (d : W) : list op :=
  map (fun i => Gate2 imprimitive
                  (Many [nth (Z.to_nat i) wires d;
                         nth (Z.to_nat ((i + r) mod len wires)) wires d]))
      (range (len wires)).

Definition layer_ops (weights : list (list R)) (r : Z) (imprimitive : G)
    (wires : list W) (r0 : R) (d : W) : list op :=
  rot_ops weights wires r0 ++ entangler_ops r imprimitive wires d.

(** A computation that always succeeds, appending [ops] and returning [a]. *)
Definition yields {A : Type} (m : M W R G A) (ops : list op) (a : A) : Prop :=
  forall q, m q = (q ++ ops, inr a).

(** The body shared by both meshes once the wires of placement [(l, k)]
    have been read. *)
Definition placement_body bs (theta phi : list R) (w : list W) (d : W)
    (p : Z * Z) (n : Z) : M W R G Z :=
  two_mode_element zero bs theta phi n
                   (nth (Z.to_nat (snd p)) w d) (nth (Z.to_nat (snd p + 1)) w d) ;;;
  ret (n + 1).

(** Moving the phase of a beamsplitter into a preceding rotation on its
    first wire. *)
Definition clements_of (o : op) : list op :=
  match o with
  | Beamsplitter t p (Many (w1 :: ws)) =>
      [Rotation p (Many [w1]); Beamsplitter t zero (Many (w1 :: ws))]
  | _ => [o]
  end.

(** A weight block of shape [(n, 3)]. *)
Definition block_shape (n : Z) (weights : list (list R)) : Prop :=
  len weights = n /\ Forall (fun row => len row = 3) weights.

(** The exceptions a computation can raise all satisfy [P]. *)
Definition raises_only {A : Type} (P : exn -> Prop) (m : M W R G A) : Prop :=
  forall q q' e, m q = (q', inl e) -> P e.

(** The rotation queued by pass [j] when that pass takes the rotation branch. *)
Definition rotation_op (weights : list R) (rotations : list G) (wires : list W)
    (rng : nat -> draw W) (g0 : G) (x0 : R) (w0 : W) (j : nat) : op :=
  Gate1 (nth (d_gate (rng j) mod List.length rotations) rotations g0)
        (nth j weights x0)
        (One (nth (d_wire (rng j) mod List.length wires) wires w0)).

End Layouts.

Arguments element_ops {W R G} zero beamsplitter t p w1 w2.
Arguments mesh_ops {W R G} zero beamsplitter theta phi w r0 d n0 ps.
Arguments output_ops {W R G} varphi w.
Arguments is_Beamsplitter {W R G} o.
Arguments is_Gate1 {W R G} o.
Arguments is_Gate2 {W R G} o.
Arguments count {W R G} f q.
Arguments rot_ops {W R G} weights wires r0.
Arguments entangler_ops {W R G} r imprimitive wires d.
Arguments layer_ops {W R G} weights r imprimitive wires r0 d.
Arguments yields {W R G A} m ops a.
Arguments placement_body {W R G} zero bs theta phi w d p n.
Arguments clements_of {W R G} zero o.
Arguments block_shape {R} n weights.
Arguments raises_only {W R G A} P m.
Arguments rotation_op {W R G} weights rotations wires rng g0 x0 w0 j.

(** The placements selected by a static [mesh] value. *)
Definition mesh_placements (mesh : pyval) (N : Z) : list (Z * Z) :=
  if py_eq_str mesh "rectangular" then rectangular_placements N
  else if py_eq_str mesh "triangular" then triangular_placements N
  else [].

Definition zsum (l : list Z) : Z := fold_right Z.add 0 l.

(** [t*t/4], the number of elements in the first [t-1] layers of a triangle. *)
Definition quarter_square (t : Z) : Z := (t / 2) * ((t + 1) / 2).

(** How many of the [n] draws from pass [t] on exceed [ratio_imprim]. *)
Fixpoint rotation_draws {W : Type} (ratio_imprim : Q) (rng : nat -> draw W)
    (t n : nat) : nat :=
  match n with
  | O => O
  | S n' =>
      ((if exceeds (d_u (rng t)) ratio_imprim then 1 else 0)
       + rotation_draws ratio_imprim rng (S t) n')%nat
  end.

(** ** Concrete inputs for the examples *)

Inductive gate_class : Type := CNOT | RX | RY | RZ.

(** Draws whose value of [np.random.random()] is always 1/2. *)
Definition draws_half : nat -> draw Z :=
  fun _ => mkDraw (1 # 2) 0 0 (fun ws => ws).

(** Draws whose first value of [np.random.random()] is 0.0 and whose later
    values are 1/2. *)
Definition draws_zero_first : nat -> draw Z :=
  fun t => mkDraw (if (t =? 0)%nat then 0 else 1 # 2) 0 0 (fun ws => ws).

(** ** Further definitions for the properties beyond the claims *)

(** [Interferometer] called with its default selectors,
    [mesh='rectangular'] and [beamsplitter='pennylane'] (line 289). *)
Definition default_mesh : pyval := PyStr "rectangular".
Definition default_beamsplitter : pyval := PyStr "pennylane".

Section MoreLayers.

Variables (W R G : Type).

Local Abbreviation op := (operation W R G).

(** The parameters of the single-wire gates of a queue, in order. *)
Fixpoint gate1_params (ops : list op) : list R :=
  match ops with
  | [] => []
  | Gate1 _ x _ :: ops' => x :: gate1_params ops'
  | _ :: ops' => gate1_params ops'
  end.

(** An operation as [RandomLayer] may place it: a palette gate with one of
    the weights on one of the wires, or the imprimitive gate on two different
    wires. *)
Definition placed (weights : list R) (imprimitive : G) (rotations : list G)
    (wires : list W) (o : op) : Prop :=
  (exists g x w, o = Gate1 g x (One w) /\ In g rotations /\ In x weights /\ In w wires)
  \/ (exists a b, o = Gate2 imprimitive (Many [a; b])
                  /\ a <> b /\ In a wires /\ In b wires).

(** *** [RandomLayers] (lines 137-157)

    Row [l] of [weights] is handed to [RandomLayer], which reads the draws
    [rngs l] and runs on [fuel] passes of its own; [None] means that a layer
    is still running. *)
Fixpoint RandomLayers_from
    (fuel : nat) (weights : list (list R)) (ratio_imprim : Q) (imprimitive : G)
    (rotations : list G) (wires : list W) (rngs : nat -> nat -> draw W)
    (l : nat) (q : list op) : option (list op * (exn + unit)) :=
  match weights with
  | [] => Some (q, inr tt)
  | layer_weights :: rest =>
      match RandomLayer fuel layer_weights ratio_imprim imprimitive rotations wires
                        (rngs l) q with
      | None => None
      | Some (q', inl e) => Some (q', inl e)
      | Some (q', inr _) =>
          RandomLayers_from fuel rest ratio_imprim imprimitive rotations wires
                            rngs (S l) q'
      end
  end.

Definition RandomLayers
    (fuel : nat) (weights : list (list R)) (ratio_imprim : Q) (imprimitive : G)
    (rotations : list G) (wires : list W) (rngs : nat -> nat -> draw W)
    (q : list op) : option (list op * (exn + unit)) :=
  RandomLayers_from fuel weights ratio_imprim imprimitive rotations wires rngs 0 q.

End MoreLayers.

Arguments gate1_params {W R G} ops.
Arguments placed {W R G} weights imprimitive rotations wires o.
Arguments RandomLayers_from {W R G} fuel weights ratio_imprim imprimitive rotations wires rngs l q.
Arguments RandomLayers {W R G} fuel weights ratio_imprim imprimitive rotations wires rngs q.

(** ** The continuous-variable layers *)

Section CVLayers.

Variables (W R G : Type).
Variable zero : R.

(** The operations queued by [CVNeuralNetLayer]: those of [Interferometer]
    and the three single-mode gates applied between and after the two
    interferometers. *)
Inductive cv_operation : Type :=
| Op (o : operation W R G)
| Squeezing (r phi : R) (wires : wires_t W)
| Displacement (a phi : R) (wires : wires_t W)
| Kerr (k : R) (wires : wires_t W).

(** The queue-and-exception monad over this larger queue. *)
Definition CM (A : Type) : Type :=
  list cv_operation -> list cv_operation * (exn + A).

Definition cv_ret {A : Type} (a : A) : CM A := fun q => (q, inr a).

Definition cv_bind {A B : Type} (m : CM A) (f : A -> CM B) : CM B :=
  fun q => match m q with
           | (q', inl e) => (q', inl e)
           | (q', inr a) => f a q'
           end.

Definition cv_raise {A : Type} (e : exn) : CM A := fun q => (q, inl e).

Definition cv_emit (o : cv_operation) : CM unit := fun q => (q ++ [o], inr tt).

Definition cv_getitem {A : Type} (l : list A) (i : Z) : CM A :=
  match py_index l i with
  | Some x => cv_ret x
  | None => cv_raise IndexError
  end.

Fixpoint cv_for {X : Type} (xs : list X) (body : X -> CM unit) : CM unit :=
  match xs with
  | [] => cv_ret tt
  | x :: xs' => cv_bind (body x) (fun _ => cv_for xs' body)
  end.

(** A template of the smaller queue called from a continuous-variable
    layer: what it queues is appended to the larger queue.  (A template only
    ever appends, see [Interferometer_appends].) *)
Definition lift {A : Type} (m : M W R G A) : CM A :=
  fun q => let '(ops, r) := m [] in (q ++ map Op ops, r).

End CVLayers.

Arguments Op {W R G} o.
Arguments Squeezing {W R G} r phi wires.
Arguments Displacement {W R G} a phi wires.
Arguments Kerr {W R G} k wires.
Arguments cv_ret {W R G A} a.
Arguments cv_bind {W R G A B} m f.
Arguments cv_raise {W R G A} e.
Arguments cv_emit {W R G} o.
Arguments cv_getitem {W R G A} l i.
Arguments cv_for {W R G X} xs body.
Arguments lift {W R G A} m.

Declare Scope cv_scope.
Delimit Scope cv_scope with cv.
Notation "x <- m ;; k" := (cv_bind m (fun x => k))
  (at level 100, m at next level, right associativity) : cv_scope.
Notation "m ;;; k" := (cv_bind m (fun _ => k))
  (at level 100, right associativity) : cv_scope.

Section CVTemplates.

Variables (W R G : Type).
Variable zero : R.

(** *** [CVNeuralNetLayer] (lines 239-286) *)

Definition CVNeuralNetLayer
    (theta_1 phi_1 varphi_1 r phi_r theta_2 phi_2 varphi_2 a phi_a k : list R)
    (wires : list W) : CM W R G unit :=
  (lift (Interferometer zero theta_1 phi_1 varphi_1 (Many wires)
                        default_mesh default_beamsplitter) ;;;
   cv_for (enumerate wires)
          (fun '(i, wire) =>
             ri <- cv_getitem r i ;;
             pi <- cv_getitem phi_r i ;;
             cv_emit (Squeezing ri pi (One wire))) ;;;
   lift (Interferometer zero theta_2 phi_2 varphi_2 (Many wires)
                        default_mesh default_beamsplitter) ;;;
   cv_for (enumerate wires)
          (fun '(i, wire) =>
             ai <- cv_getitem a i ;;
             pi <- cv_getitem phi_a i ;;
             cv_emit (Displacement ai pi (One wire))) ;;;
   cv_for (enumerate wires)
          (fun '(i, wire) =>
             ki <- cv_getitem k i ;;
             cv_emit (Kerr ki (One wire))))%cv.

(** *** [CVNeuralNetLayers] (lines 204-236)

    The eleven slices [theta_1[l]], ..., [k[l]] are read from left to right
    before the layer is called. *)

Definition CVNeuralNetLayers
    (theta_1 phi_1 varphi_1 r phi_r theta_2 phi_2 varphi_2 a phi_a k : list (list R))
    (wires : list W) : CM W R G unit :=
  let n_layers := len theta_1 in
  cv_for (range n_layers)
         (fun l =>
            (t1 <- cv_getitem theta_1 l ;;
             p1 <- cv_getitem phi_1 l ;;
             v1 <- cv_getitem varphi_1 l ;;
             rl <- cv_getitem r l ;;
             pr <- cv_getitem phi_r l ;;
             t2 <- cv_getitem theta_2 l ;;
             p2 <- cv_getitem phi_2 l ;;
             v2 <- cv_getitem varphi_2 l ;;
             al <- cv_getitem a l ;;
             pa <- cv_getitem phi_a l ;;
             kl <- cv_getitem k l ;;
             CVNeuralNetLayer t1 p1 v1 rl pr t2 p2 v2 al pa kl wires)%cv).

(** The operations of the three loops over the modes. *)
Definition squeezing_ops (r phi_r : list R) (wires : list W) (r0 : R)
    : list (cv_operation W R G) :=
  map (fun '(i, wire) =>
         Squeezing (nth (Z.to_nat i) r r0) (nth (Z.to_nat i) phi_r r0) (One wire))
      (enumerate wires).

Definition displacement_ops (a phi_a : list R) (wires : list W) (r0 : R)
    : list (cv_operation W R G) :=
  map (fun '(i, wire) =>
         Displacement (nth (Z.to_nat i) a r0) (nth (Z.to_nat i) phi_a r0) (One wire))
      (enumerate wires).

Definition kerr_ops (k : list R) (wires : list W) (r0 : R)
    : list (cv_operation W R G) :=
  map (fun '(i, wire) => Kerr (nth (Z.to_nat i) k r0) (One wire)) (enumerate wires).

(** The operations of one interferometer of [N >= 2] modes with the default
    selectors. *)
Definition interferometer_ops (theta phi varphi : list R) (wires : list W)
    (r0 : R) (d : W) : list (operation W R G) :=
  mesh_ops zero default_beamsplitter theta phi wires r0 d 0
           (rectangular_placements (len wires))
  ++ output_ops varphi wires.

(** A computation on the larger queue that always succeeds. *)
Definition cv_yields {A : Type} (m : CM W R G A) (ops : list (cv_operation W R G))
    (a : A) : Prop :=
  forall q, m q = (q ++ ops, inr a).

(** A template only ever appends to the queue it is given. *)
Definition appends {A : Type} (m : M W R G A) : Prop :=
  forall q, m q = (q ++ fst (m []), snd (m [])).

(** The call made for layer [l] once the eleven slices have been read. *)
Definition CVNeuralNetLayer_at
    (theta_1 phi_1 varphi_1 r phi_r theta_2 phi_2 varphi_2 a phi_a k : list (list R))
    (wires : list W) (l : Z) : CM W R G unit :=
  let row (x : list (list R)) := nth (Z.to_nat l) x [] in
  CVNeuralNetLayer (row theta_1) (row phi_1) (row varphi_1) (row r) (row phi_r)
                   (row theta_2) (row phi_2) (row varphi_2) (row a) (row phi_a) (row k)
                   wires.

(** The length of the shortest of the ten arrays other than [theta_1]. *)
Definition fewest_layers
    (phi_1 varphi_1 r phi_r theta_2 phi_2 varphi_2 a phi_a k : list (list R)) : Z :=
  Z.min (len phi_1) (Z.min (len varphi_1) (Z.min (len r) (Z.min (len phi_r)
    (Z.min (len theta_2) (Z.min (len phi_2) (Z.min (len varphi_2) (Z.min (len a)
      (Z.min (len phi_a) (len k))))))))).

End CVTemplates.

Arguments CVNeuralNetLayer {W R G} zero theta_1 phi_1 varphi_1 r phi_r theta_2 phi_2 varphi_2 a phi_a k wires.
Arguments CVNeuralNetLayers {W R G} zero theta_1 phi_1 varphi_1 r phi_r theta_2 phi_2 varphi_2 a phi_a k wires.
Arguments squeezing_ops {W R G} r phi_r wires r0.
Arguments displacement_ops {W R G} a phi_a wires r0.
Arguments kerr_ops {W R G} k wires r0.
Arguments interferometer_ops {W R G} zero theta phi varphi wires r0 d.
Arguments CVNeuralNetLayer_at {W R G} zero theta_1 phi_1 varphi_1 r phi_r theta_2 phi_2 varphi_2 a phi_a k wires l.
Arguments fewest_layers {R} phi_1 varphi_1 r phi_r theta_2 phi_2 varphi_2 a phi_a k.
Arguments cv_yields {W R G A} m ops a.
Arguments appends {W R G A} m.

(** ** Tactics *)

Ltac dlia := Z.div_mod_to_equations; lia.

(** ** Integer sequences: basic facts *)

Lemma len_app {A : Type} (l1 l2 : list A) : len (l1 ++ l2) = len l1 + len l2.
Proof. unfold len. rewrite length_app. lia. Qed.

Lemma len_nonneg {A : Type} (l : list A) : 0 <= len l.
Proof. unfold len. lia. Qed.

Lemma range_of_nat (n : nat) : range (Z.of_nat n) = map Z.of_nat (seq 0 n).
Proof.
  unfold range, range3.
  replace ((Z.of_nat n - 0 + 1 - 1) / 1) with (Z.of_nat n) by (rewrite Z.div_1_r; lia).
  rewrite Nat2Z.id. apply map_ext. intros i. lia.
Qed.

Lemma range_nonpos (n : Z) : n <= 0 -> range n = [].
Proof.
  intros Hn. unfold range, range3.
  replace (Z.to_nat ((n - 0 + 1 - 1) / 1)) with 0%nat; [reflexivity|].
  rewrite Z.div_1_r. lia.
Qed.


Lemma In_range (n k : Z) : In k (range n) <-> 0 <= k < n.
Proof.
  destruct (Z_le_gt_dec n 0) as [Hn|Hn].
  - rewrite range_nonpos by assumption. simpl. lia.
  - rewrite <- (Z2Nat.id n) by lia. rewrite range_of_nat, in_map_iff.
    split.
    + intros [i [<- Hi]]. apply in_seq in Hi. lia.
    + intros Hk. exists (Z.to_nat k). split; [lia|]. apply in_seq. lia.
Qed.

Lemma len_range3_2 (a b : Z) : len (range3 a b 2) = Z.max 0 ((b - a + 1) / 2).
Proof.
  unfold range3, len. rewrite length_map, length_seq.
  replace (b - a + 2 - 1) with (b - a + 1) by lia. lia.
Qed.

Lemma In_range3_2 (a b k : Z) : In k (range3 a b 2) -> a <= k < b.
Proof.
  unfold range3. rewrite in_map_iff. intros [i [<- Hi]]. apply in_seq in Hi.
  replace (b - a + 2 - 1) with (b - a + 1) in Hi by lia.
  assert (H : Z.of_nat i < (b - a + 1) / 2) by lia.
  pose proof (Z.mul_div_le (b - a + 1) 2 ltac:(lia)). lia.
Qed.

Lemma py_index_nonneg {A : Type} (l : list A) (i : Z) :
  0 <= i -> py_index l i = nth_error l (Z.to_nat i).
Proof.
  intros Hi. unfold py_index. destruct (Z.ltb_spec i 0); [lia|reflexivity].
Qed.

Lemma py_index_nth {A : Type} (l : list A) (i : Z) (d : A) :
  0 <= i < len l -> py_index l i = Some (nth (Z.to_nat i) l d).
Proof.
  intros Hi. rewrite py_index_nonneg by lia. apply nth_error_nth'.
  unfold len in Hi. lia.
Qed.

Lemma py_index_out {A : Type} (l : list A) (i : Z) :
  len l <= i -> py_index l i = None.
Proof.
  intros Hi. pose proof (len_nonneg l). rewrite py_index_nonneg by lia.
  apply nth_error_None. unfold len in Hi. lia.
Qed.

(** ** Loops in the queue monad *)

Section LoopFacts.

Variables (W R G : Type).

Local Abbreviation op := (operation W R G).
Local Abbreviation Mq := (M W R G).

Lemma yields_ret {A : Type} (a : A) : yields (ret a : Mq A) [] a.
Proof. intros q. unfold ret. now rewrite app_nil_r. Qed.

Lemma yields_emit (o : op) : yields (emit o) [o] tt.
Proof. intros q. reflexivity. Qed.

Lemma yields_bind {A B : Type} (m : Mq A) (f : A -> Mq B) ops1 a ops2 b :
  yields m ops1 a -> yields (f a) ops2 b -> yields (bind m f) (ops1 ++ ops2) b.
Proof.
  intros Hm Hf q. unfold bind. rewrite Hm, Hf. now rewrite app_assoc.
Qed.

Lemma yields_getitem {A : Type} (l : list A) (i : Z) (d : A) :
  0 <= i < len l -> yields (getitem l i : Mq A) [] (nth (Z.to_nat i) l d).
Proof.
  intros Hi. unfold getitem. rewrite (py_index_nth l i d Hi). apply yields_ret.
Qed.

Lemma bind_yields_l {A B : Type} (m : Mq A) (f : A -> Mq B) ops a q :
  yields m ops a -> bind m f q = f a (q ++ ops).
Proof. intros Hm. unfold bind. now rewrite Hm. Qed.

Lemma for_app {X S : Type} (xs ys : list X) (body : X -> S -> Mq S) (s : S) q :
  for_ (xs ++ ys) body s q = bind (for_ xs body s) (for_ ys body) q.
Proof.
  revert s q. induction xs as [|x xs IH]; intros s q; simpl.
  - reflexivity.
  - unfold bind in *. destruct (body x s q) as [q' [e|s']].
    + reflexivity.
    + apply IH.
Qed.

Lemma for_ext {X S : Type} (xs : list X) (b1 b2 : X -> S -> Mq S) (s : S) q :
  (forall x s q, In x xs -> b1 x s q = b2 x s q) ->
  for_ xs b1 s q = for_ xs b2 s q.
Proof.
  revert s q. induction xs as [|x xs IH]; intros s q Hb; simpl.
  - reflexivity.
  - unfold bind. rewrite Hb by (now left).
    destruct (b2 x s q) as [q' [e|s']]; [reflexivity|].
    apply IH. intros; apply Hb. now right.
Qed.

Lemma for_map {X Y S : Type} (f : X -> Y) (xs : list X) (body : Y -> S -> Mq S) (s : S) q :
  for_ (map f xs) body s q = for_ xs (fun x => body (f x)) s q.
Proof.
  revert s q. induction xs as [|x xs IH]; intros s q; simpl.
  - reflexivity.
  - unfold bind. destruct (body (f x) s q) as [q' [e|s']]; [reflexivity|apply IH].
Qed.

(** A guarded body runs the loop over the elements that pass the guard. *)
Lemma for_filter {X S : Type} (c : X -> bool) (xs : list X) (body : X -> S -> Mq S) (s : S) q :
  for_ xs (fun x s => if c x then body x s else ret s) s q = for_ (filter c xs) body s q.
Proof.
  revert s q. induction xs as [|x xs IH]; intros s q; simpl.
  - reflexivity.
  - destruct (c x); simpl.
    + unfold bind. destruct (body x s q) as [q' [e|s']]; [reflexivity|apply IH].
    + unfold bind, ret. apply IH.
Qed.

(** Two nested loops that share the loop-carried variables are one loop
    over the pairs. *)
Lemma for_nested {X Y S : Type} (xs : list X) (inner : X -> list Y)
    (body : X -> Y -> S -> Mq S) (s : S) q :
  for_ xs (fun x s => for_ (inner x) (body x) s) s q
  = for_ (flat_map (fun x => map (pair x) (inner x)) xs) (fun '(x, y) => body x y) s q.
Proof.
  revert s q. induction xs as [|x xs IH]; intros s q; simpl.
  - reflexivity.
  - rewrite for_app. unfold bind.
    assert (E : for_ (map (pair x) (inner x)) (fun '(x, y) => body x y) s q
                = for_ (inner x) (body x) s q).
    { rewrite for_map. apply for_ext. reflexivity. }
    rewrite E. destruct (for_ (inner x) (body x) s q) as [q' [e|s']].
    + reflexivity.
    + apply IH.
Qed.

(** A loop over a counter [n] whose body succeeds on each element. *)
Lemma yields_for_counter {X : Type} (xs : list X) (body : X -> Z -> Mq Z)
    (out : Z -> X -> list op) (n0 : Z) :
  (forall j x, nth_error xs j = Some x ->
               yields (body x (n0 + Z.of_nat j)) (out (n0 + Z.of_nat j) x) (n0 + Z.of_nat j + 1)) ->
  yields (for_ xs body n0)
         (flat_map (fun '(n, x) => out n x) (enumerate_from n0 xs))
         (n0 + len xs).
Proof.
  revert n0. induction xs as [|x xs IH]; intros n0 Hb.
  - simpl. replace (n0 + len []) with n0 by (unfold len; simpl; lia). apply yields_ret.
  - cbn [for_ enumerate_from flat_map].
    replace (n0 + len (x :: xs)) with ((n0 + 1) + len xs)
      by (unfold len; cbn [List.length]; lia).
    apply yields_bind with (a := n0 + 1).
    + specialize (Hb 0%nat x eq_refl). simpl in Hb.
      replace (n0 + 0) with n0 in Hb by lia. exact Hb.
    + apply IH. intros j y Hj. specialize (Hb (S j) y Hj).
      replace (n0 + 1 + Z.of_nat j) with (n0 + Z.of_nat (S j)) by lia. exact Hb.
Qed.

(** A loop without loop-carried variables whose body succeeds on each element. *)
Lemma yields_for_unit {X : Type} (xs : list X) (body : X -> unit -> Mq unit)
    (out : X -> list op) :
  (forall x, In x xs -> yields (body x tt) (out x) tt) ->
  yields (for_ xs body tt) (flat_map out xs) tt.
Proof.
  induction xs as [|x xs IH]; intros Hb.
  - apply yields_ret.
  - simpl. apply yields_bind with (a := tt).
    + apply Hb. now left.
    + apply IH. intros; apply Hb. now right.
Qed.

End LoopFacts.

(** ** The interferometer loops against the placement lists *)

Section MeshFacts.

Variables (W R G : Type).
Variable zero : R.

Local Abbreviation op := (operation W R G).
Local Abbreviation Mq := (M W R G).

Lemma getitem_bind {A B : Type} (l : list A) (i : Z) (d : A) (f : A -> Mq B) q :
  0 <= i < len l -> bind (getitem l i) f q = f (nth (Z.to_nat i) l d) q.
Proof.
  intros Hi. rewrite (bind_yields_l W R G _ _ _ _ _ (yields_getitem W R G l i d Hi)).
  now rewrite app_nil_r.
Qed.

Lemma yields_two_mode_element bs (theta phi : list R) (n : Z) (w1 w2 : W) (r0 : R) :
  0 <= n < len theta -> 0 <= n < len phi ->
  yields (two_mode_element (G:=G) zero bs theta phi n w1 w2)
         (element_ops zero bs (nth (Z.to_nat n) theta r0) (nth (Z.to_nat n) phi r0) w1 w2)
         tt.
Proof.
  intros Ht Hp q. unfold two_mode_element, element_ops, bind, getitem, emit, ret.
  rewrite (py_index_nth theta n r0 Ht), (py_index_nth phi n r0 Hp).
  destruct (py_eq_str bs "clements"); cbn; rewrite <- ?app_assoc; reflexivity.
Qed.

Lemma yields_placements bs (theta phi : list R) (w : list W) (r0 : R) (d : W)
    (ps : list (Z * Z)) (n0 : Z) :
  0 <= n0 -> n0 + len ps <= len theta -> n0 + len ps <= len phi ->
  yields (for_ ps (placement_body (G:=G) zero bs theta phi w d) n0)
         (mesh_ops zero bs theta phi w r0 d n0 ps)
         (n0 + len ps).
Proof.
  intros H0 Ht Hp. unfold mesh_ops.
  apply (yields_for_counter W R G ps (placement_body (G:=G) zero bs theta phi w d)
           (fun n '(_, k) =>
              element_ops zero bs (nth (Z.to_nat n) theta r0) (nth (Z.to_nat n) phi r0)
                          (nth (Z.to_nat k) w d) (nth (Z.to_nat (k + 1)) w d))).
  intros j [l k] Hj. unfold placement_body. cbn [snd].
  assert (Hlt : Z.of_nat j < len ps).
  { unfold len. apply Nat2Z.inj_lt. apply nth_error_Some. congruence. }
  rewrite <- (app_nil_r (element_ops _ _ _ _ _ _)).
  eapply yields_bind.
  - apply yields_two_mode_element; lia.
  - apply yields_ret.
Qed.

(** [enumerate(zip(w[:-1], w[1:]))] lists the adjacent pairs by position. *)
Lemma adjacent_pairs_from (w : list W) (d : W) (i : Z) :
  enumerate_from i (combine (removelast w) (tl w))
  = map (fun j => (i + Z.of_nat j, (nth j w d, nth (S j) w d)))
        (seq 0 (List.length w - 1)).
Proof.
  revert i. induction w as [|x w IH]; intros i; [reflexivity|].
  destruct w as [|y w]; [reflexivity|].
  change (removelast (x :: y :: w)) with (x :: removelast (y :: w)).
  cbn [tl combine enumerate_from].
  change w with (tl (y :: w)) at 2. rewrite IH.
  replace (List.length (x :: y :: w) - 1)%nat with (S (List.length w))
    by (cbn [List.length]; lia).
  replace (List.length (y :: w) - 1)%nat with (List.length w)
    by (cbn [List.length]; lia).
  cbn [seq]. rewrite <- seq_shift. cbn [map]. rewrite map_map.
  f_equal; [f_equal; lia|].
  apply map_ext. intros j. f_equal. lia.
Qed.

Lemma adjacent_pairs (w : list W) (d : W) :
  enumerate (combine (removelast w) (tl w))
  = map (fun k => (k, (nth (Z.to_nat k) w d, nth (Z.to_nat (k + 1)) w d)))
        (range (len w - 1)).
Proof.
  unfold enumerate. rewrite (adjacent_pairs_from w d 0).
  destruct w as [|x w]; [reflexivity|].
  replace (len (x :: w) - 1) with (Z.of_nat (List.length (x :: w) - 1))
    by (unfold len; cbn [List.length]; lia).
  rewrite range_of_nat, map_map. apply map_ext. intros j.
  rewrite Nat2Z.id. replace (Z.to_nat (Z.of_nat j + 1)) with (S j) by lia.
  reflexivity.
Qed.

(** The rectangular double loop (lines 397-406) is one loop over
    [rectangular_placements]. *)
Lemma rectangular_loop bs (theta phi : list R) (w : list W) (d : W) q :
  for_ (range (len w))
       (fun l n =>
          for_ (enumerate (combine (removelast w) (tl w)))
               (fun '(k, (w1, w2)) n =>
                  if negb ((l + k) mod 2 =? 1) then
                    two_mode_element zero bs theta phi n w1 w2 ;;; ret (n + 1)
                  else ret n) n) 0 q
  = for_ (rectangular_placements (len w)) (placement_body (G:=G) zero bs theta phi w d) 0 q.
Proof.
  unfold rectangular_placements.
  rewrite (for_ext _ _ _ _ _
             (fun l n => for_ (rectangular_layer (len w) l)
                              (fun k => placement_body (G:=G) zero bs theta phi w d (l, k)) n)).
  - rewrite (for_nested W R G (range (len w)) (rectangular_layer (len w))
               (fun l k => placement_body (G:=G) zero bs theta phi w d (l, k))).
    apply for_ext. intros [l k] n q' _. reflexivity.
  - intros l n q' _. rewrite (adjacent_pairs w d), for_map.
    unfold rectangular_layer.
    rewrite <- (for_filter W R G (fun k => negb ((l + k) mod 2 =? 1))).
    apply for_ext. intros k n' q'' _. reflexivity.
Qed.

(** The triangular double loop (lines 411-418) is one loop over
    [triangular_placements]. *)
Lemma triangular_loop bs (theta phi : list R) (w : list W) (d : W) q :
  for_ (range (2 * len w - 3))
       (fun l n =>
          for_ (range3 (Z.abs (l + 1 - (len w - 1))) (len w - 1) 2)
               (fun k n =>
                  w1 <- getitem w k ;;
                  w2 <- getitem w (k + 1) ;;
                  two_mode_element zero bs theta phi n w1 w2 ;;;
                  ret (n + 1)) n) 0 q
  = for_ (triangular_placements (len w)) (placement_body (G:=G) zero bs theta phi w d) 0 q.
Proof.
  unfold triangular_placements.
  rewrite (for_ext _ _ _ _ _
             (fun l n => for_ (triangular_layer (len w) l)
                              (fun k => placement_body (G:=G) zero bs theta phi w d (l, k)) n)).
  - rewrite (for_nested W R G (range (2 * len w - 3)) (triangular_layer (len w))
               (fun l k => placement_body (G:=G) zero bs theta phi w d (l, k))).
    apply for_ext. intros [l k] n q' _. reflexivity.
  - intros l n q' _. unfold triangular_layer. apply for_ext.
    intros k n' q'' Hk. apply In_range3_2 in Hk.
    pose proof (Z.abs_nonneg (l + 1 - (len w - 1))).
    rewrite (getitem_bind w k d) by lia.
    rewrite (getitem_bind w (k + 1) d) by lia.
    reflexivity.
Qed.

(** The final loop over [varphi] (lines 421-422). *)
Lemma output_loop_from (varphi : list R) (w0 w1 : list W) q :
  for_ (enumerate_from (len w0) varphi)
       (fun '(i, p) _ => wi <- getitem (w0 ++ w1) i ;; emit (G:=G) (Rotation p (Many [wi]))) tt q
  = (q ++ output_ops varphi w1,
     if len varphi <=? len w1 then inr tt else inl IndexError).
Proof.
  revert w0 w1 q. induction varphi as [|p varphi IH]; intros w0 w1 q.
  - cbn. rewrite app_nil_r.
    pose proof (len_nonneg w1). destruct (Z.leb_spec 0 (len w1)); [reflexivity|lia].
  - cbn [enumerate_from for_]. destruct w1 as [|x w1].
    + unfold bind, getitem. rewrite py_index_out by (rewrite app_nil_r; lia).
      cbn. now rewrite app_nil_r.
    + pose proof (len_nonneg w0).
      assert (E : (wi <- getitem (w0 ++ x :: w1) (len w0) ;;
                   emit (G:=G) (Rotation p (Many [wi]))) q
                  = (q ++ [Rotation p (Many [x])], inr tt)).
      { rewrite (getitem_bind (w0 ++ x :: w1) (len w0) x)
          by (rewrite len_app; unfold len; cbn [List.length]; lia).
        unfold len. rewrite Nat2Z.id, nth_middle. reflexivity. }
      cbv beta iota. unfold bind at 1. rewrite E.
      replace (len w0 + 1) with (len (w0 ++ [x])) by (rewrite len_app; reflexivity).
      replace (w0 ++ x :: w1) with ((w0 ++ [x]) ++ w1) by (now rewrite <- app_assoc).
      rewrite IH. unfold output_ops. cbn [combine map].
      rewrite <- app_assoc. cbn [app]. f_equal.
      unfold len. cbn [List.length].
      destruct (Z.leb_spec (Z.of_nat (List.length varphi)) (Z.of_nat (List.length w1)));
        destruct (Z.leb_spec (Z.of_nat (S (List.length varphi))) (Z.of_nat (S (List.length w1))));
        (reflexivity || lia).
Qed.

Lemma output_loop (varphi : list R) (w : list W) q :
  for_ (enumerate varphi)
       (fun '(i, p) _ => wi <- getitem w i ;; emit (G:=G) (Rotation p (Many [wi]))) tt q
  = (q ++ output_ops varphi w,
     if len varphi <=? len w then inr tt else inl IndexError).
Proof. exact (output_loop_from varphi [] w q). Qed.

End MeshFacts.

(** ** Counting the placements *)

Lemma zsum_app (l1 l2 : list Z) : zsum (l1 ++ l2) = zsum l1 + zsum l2.
Proof. unfold zsum. induction l1 as [|x l1 IH]; cbn [app fold_right]; lia. Qed.

Lemma len_layers {X : Type} (f : X -> list Z) (xs : list X) :
  len (flat_map (fun l => map (pair l) (f l)) xs) = zsum (map (fun l => len (f l)) xs).
Proof.
  induction xs as [|x xs IH]; [reflexivity|].
  cbn [flat_map map zsum fold_right]. rewrite len_app, IH.
  unfold len at 1. rewrite length_map. reflexivity.
Qed.

Lemma range_succ (n : Z) : 0 <= n -> range (n + 1) = range n ++ [n].
Proof.
  intros Hn. rewrite <- (Z2Nat.id n Hn). generalize (Z.to_nat n) as m. intros m.
  replace (Z.of_nat m + 1) with (Z.of_nat (S m)) by lia.
  rewrite !range_of_nat, seq_S, map_app. reflexivity.
Qed.

Lemma zsum_range_succ (c : Z -> Z) (n : Z) :
  0 <= n -> zsum (map c (range (n + 1))) = zsum (map c (range n)) + c n.
Proof.
  intros Hn. rewrite range_succ, map_app, zsum_app by assumption.
  cbn [map zsum fold_right]. lia.
Qed.

Lemma len_rectangular_layer (N l : Z) :
  1 <= N -> 0 <= l -> len (rectangular_layer N l) = (N - l mod 2) / 2.
Proof.
  intros HN Hl. unfold rectangular_layer.
  replace N with (Z.of_nat (Z.to_nat (N - 1)) + 1) by lia.
  replace (Z.of_nat (Z.to_nat (N - 1)) + 1 - 1) with (Z.of_nat (Z.to_nat (N - 1))) by lia.
  induction (Z.to_nat (N - 1)) as [|m IH].
  - change (Z.of_nat 0) with 0. rewrite range_nonpos by lia.
    change (len (filter _ [])) with 0. dlia.
  - replace (Z.of_nat (S m)) with (Z.of_nat m + 1) by lia.
    rewrite range_succ, filter_app, len_app, IH by lia.
    cbn [filter]. destruct (Z.eqb_spec ((l + Z.of_nat m) mod 2) 1); cbn; dlia.
Qed.

Lemma In_rectangular_placements (N l k : Z) :
  In (l, k) (rectangular_placements N)
  <-> 0 <= l < N /\ 0 <= k < N - 1 /\ (l + k) mod 2 <> 1.
Proof.
  unfold rectangular_placements, rectangular_layer.
  rewrite in_flat_map. split.
  - intros [l' [Hl Hin]]. apply in_map_iff in Hin. destruct Hin as [k' [E Hk]].
    inversion E; subst. apply filter_In in Hk. destruct Hk as [Hk Hc].
    apply In_range in Hl, Hk. split; [lia|split; [lia|]].
    destruct (Z.eqb_spec ((l + k) mod 2) 1); [discriminate|assumption].
  - intros [Hl [Hk Hc]]. exists l. split; [now apply In_range|].
    apply in_map. apply filter_In. split; [now apply In_range|].
    destruct (Z.eqb_spec ((l + k) mod 2) 1); [contradiction|reflexivity].
Qed.

Lemma zsum_rectangular_pairs (N : Z) (j : nat) :
  zsum (map (fun l => (N - l mod 2) / 2) (range (2 * Z.of_nat j))) = Z.of_nat j * (N - 1).
Proof.
  induction j as [|j IH]; [reflexivity|].
  replace (2 * Z.of_nat (S j)) with (2 * Z.of_nat j + 1 + 1) by lia.
  rewrite !zsum_range_succ, IH by lia.
  replace ((2 * Z.of_nat j) mod 2) with 0 by dlia.
  replace ((2 * Z.of_nat j + 1) mod 2) with 1 by dlia.
  replace (Z.of_nat (S j)) with (Z.of_nat j + 1) by lia.
  assert (H : (N - 0) / 2 + (N - 1) / 2 = N - 1) by dlia. lia.
Qed.

Lemma len_rectangular_placements (N : Z) :
  1 <= N -> len (rectangular_placements N) = N * (N - 1) / 2.
Proof.
  intros HN. unfold rectangular_placements. rewrite len_layers.
  rewrite (map_ext_in _ (fun l => (N - l mod 2) / 2))
    by (intros l Hl; apply In_range in Hl; apply len_rectangular_layer; lia).
  assert (Hpar : N = 2 * (N / 2) \/ N = 2 * (N / 2) + 1) by dlia.
  assert (Hj : 0 <= N / 2) by dlia.
  remember (N / 2) as j eqn:Ej. clear Ej.
  rewrite <- (Z2Nat.id j Hj) in Hpar. remember (Z.to_nat j) as i eqn:Ei. clear Ei Hj j.
  destruct Hpar as [E|E]; rewrite E at 1.
  - rewrite zsum_rectangular_pairs. subst N.
    replace (2 * Z.of_nat i * (2 * Z.of_nat i - 1))
      with (Z.of_nat i * (2 * Z.of_nat i - 1) * 2) by ring.
    now rewrite Z.div_mul by lia.
  - rewrite zsum_range_succ, zsum_rectangular_pairs by lia. subst N.
    replace ((2 * Z.of_nat i) mod 2) with 0 by dlia.
    replace ((2 * Z.of_nat i + 1 - 0) / 2) with (Z.of_nat i) by dlia.
    replace ((2 * Z.of_nat i + 1) * (2 * Z.of_nat i + 1 - 1))
      with ((2 * Z.of_nat i + 1) * Z.of_nat i * 2) by ring.
    rewrite Z.div_mul by lia. ring.
Qed.

Lemma quarter_square_succ (t : Z) :
  quarter_square (t + 1) = quarter_square t + (t + 1) / 2.
Proof.
  unfold quarter_square.
  assert (H : (t + 1) / 2 = t / 2 /\ (t + 1 + 1) / 2 = t / 2 + 1
              \/ (t + 1) / 2 = t / 2 + 1 /\ (t + 1 + 1) / 2 = t / 2 + 1) by dlia.
  destruct H as [[-> ->]|[-> ->]]; ring.
Qed.

Lemma quarter_square_total (m : Z) :
  quarter_square (m + 1) + quarter_square m = (m + 1) * m / 2.
Proof.
  unfold quarter_square.
  assert (Hpar : m = 2 * (m / 2) \/ m = 2 * (m / 2) + 1) by dlia.
  remember (m / 2) as a eqn:Ea. 
  assert (H : (m + 1) / 2 = a /\ (m + 1 + 1) / 2 = a + 1 /\ m = 2 * a
              \/ (m + 1) / 2 = a + 1 /\ (m + 1 + 1) / 2 = a + 1 /\ m = 2 * a + 1)
    by (subst a; dlia).
  clear Ea Hpar. destruct H as [[-> [-> ->]]|[-> [-> ->]]].
  - replace ((2 * a + 1) * (2 * a)) with ((2 * a + 1) * a * 2) by ring.
    rewrite Z.div_mul by lia. ring.
  - replace ((2 * a + 1 + 1) * (2 * a + 1)) with ((a + 1) * (2 * a + 1) * 2) by ring.
    rewrite Z.div_mul by lia. ring.
Qed.

Lemma len_triangular_layer (N l : Z) :
  2 <= N -> 0 <= l < 2 * N - 3 ->
  len (triangular_layer N l)
  = if l <? N - 1 then (l + 2) / 2 else (2 * (N - 1) - l) / 2.
Proof.
  intros HN Hl. unfold triangular_layer. rewrite len_range3_2.
  destruct (Z.ltb_spec l (N - 1)).
  - replace (Z.abs (l + 1 - (N - 1))) with (N - 1 - (l + 1)) by lia. dlia.
  - replace (Z.abs (l + 1 - (N - 1))) with (l + 1 - (N - 1)) by lia. dlia.
Qed.

Lemma zsum_triangle_up (N : Z) (L : nat) :
  2 <= N -> Z.of_nat L <= N - 1 ->
  zsum (map (fun l => len (triangular_layer N l)) (range (Z.of_nat L)))
  = quarter_square (Z.of_nat L + 1).
Proof.
  intros HN. induction L as [|L IH]; intros HL; [reflexivity|].
  replace (Z.of_nat (S L)) with (Z.of_nat L + 1) by lia.
  rewrite zsum_range_succ, IH, len_triangular_layer by lia.
  destruct (Z.ltb_spec (Z.of_nat L) (N - 1)); [|lia].
  rewrite (quarter_square_succ (Z.of_nat L + 1)).
  replace (Z.of_nat L + 1 + 1) with (Z.of_nat L + 2) by lia. reflexivity.
Qed.

Lemma zsum_triangle_down (N : Z) (j : nat) :
  2 <= N -> Z.of_nat j <= N - 2 ->
  zsum (map (fun l => len (triangular_layer N l)) (range (N - 1 + Z.of_nat j)))
  = quarter_square N + quarter_square (N - 1) - quarter_square (N - 1 - Z.of_nat j).
Proof.
  intros HN. induction j as [|j IH]; intros Hj.
  - replace (N - 1 + Z.of_nat 0) with (Z.of_nat (Z.to_nat (N - 1))) by lia.
    rewrite zsum_triangle_up by lia.
    replace (Z.of_nat (Z.to_nat (N - 1)) + 1) with N by lia.
    replace (N - 1 - Z.of_nat 0) with (N - 1) by lia. lia.
  - replace (N - 1 + Z.of_nat (S j)) with (N - 1 + Z.of_nat j + 1) by lia.
    rewrite zsum_range_succ, IH, len_triangular_layer by lia.
    destruct (Z.ltb_spec (N - 1 + Z.of_nat j) (N - 1)); [lia|].
    pose proof (quarter_square_succ (N - 1 - Z.of_nat (S j))) as Hq.
    replace (N - 1 - Z.of_nat (S j) + 1) with (N - 1 - Z.of_nat j) in Hq by lia.
    replace (2 * (N - 1) - (N - 1 + Z.of_nat j)) with (N - 1 - Z.of_nat j) by lia.
    lia.
Qed.

Lemma len_triangular_placements (N : Z) :
  2 <= N -> len (triangular_placements N) = N * (N - 1) / 2.
Proof.
  intros HN. unfold triangular_placements. rewrite len_layers.
  replace (2 * N - 3) with (N - 1 + Z.of_nat (Z.to_nat (N - 2))) by lia.
  rewrite zsum_triangle_down by lia.
  replace (N - 1 - Z.of_nat (Z.to_nat (N - 2))) with 1 by lia.
  pose proof (quarter_square_total (N - 1)) as Hq.
  replace (N - 1 + 1) with N in Hq by lia.
  change (quarter_square 1) with 0. lia.
Qed.

Lemma In_triangular_placements (N l k : Z) :
  In (l, k) (triangular_placements N)
  <-> 0 <= l < 2 * N - 3 /\ In k (range3 (Z.abs (l + 1 - (N - 1))) (N - 1) 2).
Proof.
  unfold triangular_placements, triangular_layer. rewrite in_flat_map. split.
  - intros [l' [Hl Hin]]. apply in_map_iff in Hin. destruct Hin as [k' [E Hk]].
    inversion E; subst. apply In_range in Hl. now split.
  - intros [Hl Hk]. exists l. split; [now apply In_range|]. now apply in_map.
Qed.

(** ** The layout of [Interferometer] *)

Section InterferometerFacts.

Variables (W R G : Type).
Variable zero : R.

Local Abbreviation op := (operation W R G).

Lemma count_app (f : op -> bool) (q1 q2 : list op) :
  count f (q1 ++ q2) = count f q1 + count f q2.
Proof. unfold count. now rewrite filter_app, len_app. Qed.

Lemma count_element_ops bs (t p : R) (w1 w2 : W) :
  count is_Beamsplitter (element_ops (G:=G) zero bs t p w1 w2) = 1.
Proof. unfold element_ops. now destruct (py_eq_str bs "clements"). Qed.

Lemma count_mesh_ops bs (theta phi : list R) (w : list W) r0 d n0 ps :
  count is_Beamsplitter (mesh_ops (G:=G) zero bs theta phi w r0 d n0 ps) = len ps.
Proof.
  unfold mesh_ops. revert n0. induction ps as [|[l k] ps IH]; intros n0; [reflexivity|].
  cbn [enumerate_from flat_map]. rewrite count_app, count_element_ops, IH.
  unfold len. cbn [List.length]. lia.
Qed.

Lemma count_output_ops (varphi : list R) (w : list W) :
  count is_Beamsplitter (output_ops (G:=G) varphi w) = 0.
Proof.
  unfold output_ops. generalize (combine varphi w) as l.
  induction l as [|[p wi] l IH]; [reflexivity|exact IH].
Qed.

(** With two or more wires and static selectors, the queue receives the
    elements of the selected placements followed by the output rotations. *)
Lemma Interferometer_layout (theta phi varphi : list R) (w : list W)
    (mesh bs : pyval) (r0 : R) (d : W) (q : list op) :
  isinstance_Variable bs = false ->
  isinstance_Variable mesh = false ->
  2 <= len w ->
  len (mesh_placements mesh (len w)) <= len theta ->
  len (mesh_placements mesh (len w)) <= len phi ->
  Interferometer zero theta phi varphi (Many w) mesh bs q
  = (q ++ mesh_ops zero bs theta phi w r0 d 0 (mesh_placements mesh (len w))
       ++ output_ops varphi w,
     if len varphi <=? len w then inr tt else inl IndexError).
Proof.
  intros Hbs Hmesh HN Ht Hp. unfold Interferometer. rewrite Hbs, Hmesh.
  destruct (Z.eqb_spec (len w) 1) as [E|_]; [lia|].
  unfold mesh_placements in *.
  assert (Hy : forall ps, len ps <= len theta -> len ps <= len phi ->
             yields (for_ ps (placement_body (G:=G) zero bs theta phi w d) 0)
                    (mesh_ops zero bs theta phi w r0 d 0 ps) (0 + len ps)).
  { intros ps H1 H2. apply yields_placements; lia. }
  unfold bind at 1.
  destruct (py_eq_str mesh "rectangular").
  - rewrite (rectangular_loop W R G zero bs theta phi w d), (Hy _ Ht Hp).
    rewrite output_loop. now rewrite app_assoc.
  - destruct (py_eq_str mesh "triangular").
    + rewrite (triangular_loop W R G zero bs theta phi w d), (Hy _ Ht Hp).
      rewrite output_loop. now rewrite app_assoc.
    + unfold ret. rewrite output_loop. reflexivity.
Qed.

(** Under the Clements convention the elements of a placement list are those
    of any other convention with each beamsplitter's phase moved out. *)
Lemma mesh_ops_clements bs (theta phi : list R) (w : list W) r0 d n0 ps :
  py_eq_str bs "clements" = false ->
  mesh_ops (G:=G) zero (PyStr "clements") theta phi w r0 d n0 ps
  = flat_map (clements_of zero) (mesh_ops zero bs theta phi w r0 d n0 ps).
Proof.
  intros Hbs. unfold mesh_ops. revert n0.
  induction ps as [|[l k] ps IH]; intros n0; [reflexivity|].
  cbn [enumerate_from flat_map]. rewrite flat_map_app, <- IH. f_equal.
  unfold element_ops. rewrite Hbs. reflexivity.
Qed.

Lemma output_ops_clements (varphi : list R) (w : list W) :
  flat_map (clements_of zero) (output_ops (G:=G) varphi w) = output_ops varphi w.
Proof.
  unfold output_ops. generalize (combine varphi w) as l.
  induction l as [|[p wi] l IH]; [reflexivity|]. cbn [map flat_map clements_of app].
  now rewrite IH.
Qed.

End InterferometerFacts.

Lemma In_range3_2_iff (a b k : Z) :
  In k (range3 a b 2) <-> a <= k < b /\ (k - a) mod 2 = 0.
Proof.
  split.
  - intros Hk. split; [now apply In_range3_2|].
    unfold range3 in Hk. apply in_map_iff in Hk. destruct Hk as [i [<- _]]. dlia.
  - intros [Hk Hpar]. unfold range3. apply in_map_iff.
    exists (Z.to_nat ((k - a) / 2)). split; [dlia|].
    apply in_seq. split; [lia|]. cbn [Nat.add].
    apply Z2Nat.inj_lt; dlia.
Qed.

Lemma py_eq_str_false (v : pyval) (s : string) :
  v <> PyStr s -> py_eq_str v s = false.
Proof.
  intros Hv. destruct v as [t| |]; try reflexivity. cbn.
  apply String.eqb_neq. congruence.
Qed.

Lemma isinstance_Variable_false (v : pyval) :
  v <> PyVariable -> isinstance_Variable v = false.
Proof. destruct v; [reflexivity|congruence|reflexivity]. Qed.

Lemma len_mesh_placements (mesh : pyval) (N : Z) :
  2 <= N -> len (mesh_placements mesh N) <= N * (N - 1) / 2.
Proof.
  intros HN. unfold mesh_placements.
  destruct (py_eq_str mesh "rectangular");
    [rewrite len_rectangular_placements by lia; lia|].
  destruct (py_eq_str mesh "triangular");
    [rewrite len_triangular_placements by lia; lia|].
  change (len []) with 0. apply Z.div_pos; nia.
Qed.

(** ** Properties of [Interferometer] *)

Section InterferometerClaims.

Variables (W R G : Type).
Variable zero : R.

Local Abbreviation op := (operation W R G).

(** C1.  With [N >= 2] wires, [theta] and [phi] of length at least
    [N(N-1)/2] and [mesh='rectangular'], [Interferometer] queues the elements
    of [rectangular_placements N] in order, the [n]-th element taking
    [theta[n]] and [phi[n]] for [n = 0, 1, ...], followed by the output
    rotations.  The placements are exactly the pairs [(l, k)] with
    [0 <= l < N], [0 <= k < N-1] and [(l + k) mod 2 <> 1]; there are
    [N(N-1)/2] of them, and as many [Beamsplitter] operations are queued. *)
Theorem C1_rectangular_mesh
    (theta phi varphi : list R) (w : list W) (bs : pyval) (r0 : R) (d : W) (q : list op) :
  2 <= len w ->
  len w * (len w - 1) / 2 <= len theta ->
  len w * (len w - 1) / 2 <= len phi ->
  bs <> PyVariable ->
  Interferometer zero theta phi varphi (Many w) (PyStr "rectangular") bs q
  = (q ++ mesh_ops zero bs theta phi w r0 d 0 (rectangular_placements (len w))
       ++ output_ops varphi w,
     if len varphi <=? len w then inr tt else inl IndexError)
  /\ len (rectangular_placements (len w)) = len w * (len w - 1) / 2
  /\ (forall l k, In (l, k) (rectangular_placements (len w))
                  <-> 0 <= l < len w /\ 0 <= k < len w - 1 /\ (l + k) mod 2 <> 1)
  /\ count is_Beamsplitter
           (mesh_ops (G:=G) zero bs theta phi w r0 d 0 (rectangular_placements (len w))
              ++ output_ops varphi w)
     = len w * (len w - 1) / 2.
Proof.
  intros HN Ht Hp Hbs.
  pose proof (len_rectangular_placements (len w) ltac:(lia)) as Hlen.
  split; [|split; [exact Hlen|split]].
  - apply (Interferometer_layout W R G zero theta phi varphi w (PyStr "rectangular") bs r0 d q);
      [now apply isinstance_Variable_false|reflexivity|assumption| |];
      change (mesh_placements (PyStr "rectangular") (len w))
        with (rectangular_placements (len w)); lia.
  - intros l k. apply In_rectangular_placements.
  - rewrite count_app, count_mesh_ops, count_output_ops. lia.
Qed.

(** C2.  With [N >= 2] wires, [theta] and [phi] of length at least
    [N(N-1)/2] and [mesh='triangular'], [Interferometer] queues the elements
    of [triangular_placements N] in order, the [n]-th element taking
    [theta[n]] and [phi[n]] for [n = 0, 1, ...], followed by the output
    rotations.  The placements are the pairs [(l, k)] with [0 <= l < 2N-3]
    and [k] running from [abs(l+1-(N-1))] in steps of 2 up to [N-2]; there are
    [N(N-1)/2] of them, and as many [Beamsplitter] operations are queued. *)
Theorem C2_triangular_mesh
    (theta phi varphi : list R) (w : list W) (bs : pyval) (r0 : R) (d : W) (q : list op) :
  2 <= len w ->
  len w * (len w - 1) / 2 <= len theta ->
  len w * (len w - 1) / 2 <= len phi ->
  bs <> PyVariable ->
  Interferometer zero theta phi varphi (Many w) (PyStr "triangular") bs q
  = (q ++ mesh_ops zero bs theta phi w r0 d 0 (triangular_placements (len w))
       ++ output_ops varphi w,
     if len varphi <=? len w then inr tt else inl IndexError)
  /\ len (triangular_placements (len w)) = len w * (len w - 1) / 2
  /\ (forall l k, In (l, k) (triangular_placements (len w))
                  <-> 0 <= l < 2 * len w - 3
                      /\ Z.abs (l + 1 - (len w - 1)) <= k <= len w - 2
                      /\ (k - Z.abs (l + 1 - (len w - 1))) mod 2 = 0)
  /\ count is_Beamsplitter
           (mesh_ops (G:=G) zero bs theta phi w r0 d 0 (triangular_placements (len w))
              ++ output_ops varphi w)
     = len w * (len w - 1) / 2.
Proof.
  intros HN Ht Hp Hbs.
  pose proof (len_triangular_placements (len w) ltac:(lia)) as Hlen.
  split; [|split; [exact Hlen|split]].
  - apply (Interferometer_layout W R G zero theta phi varphi w (PyStr "triangular") bs r0 d q);
      [now apply isinstance_Variable_false|reflexivity|assumption| |];
      change (mesh_placements (PyStr "triangular") (len w))
        with (triangular_placements (len w)); lia.
  - intros l k. rewrite In_triangular_placements, In_range3_2_iff. intuition lia.
  - rewrite count_app, count_mesh_ops, count_output_ops. lia.
Qed.

(** C3 (as the code has it).  With two or more wires and a static [mesh]
    value that is neither ['rectangular'] nor ['triangular'], no exception is
    raised on account of the mesh: no two-mode element is queued, the output
    rotations are queued as usual, and the call completes normally whenever
    [varphi] has at most as many entries as there are wires. *)
Theorem C3_unrecognised_mesh_is_skipped
    (theta phi varphi : list R) (w : list W) (mesh bs : pyval) (q : list op) :
  2 <= len w ->
  mesh <> PyStr "rectangular" -> mesh <> PyStr "triangular" -> mesh <> PyVariable ->
  bs <> PyVariable ->
  Interferometer zero theta phi varphi (Many w) mesh bs q
  = (q ++ output_ops varphi w,
     if len varphi <=? len w then inr tt else inl IndexError)
  /\ count is_Beamsplitter (output_ops (G:=G) varphi w) = 0
  /\ (len varphi <= len w ->
      snd (Interferometer zero theta phi varphi (Many w) mesh bs q) = inr tt).
Proof.
  intros HN Hr Ht Hv Hbs.
  assert (Hps : mesh_placements mesh (len w) = []).
  { unfold mesh_placements. now rewrite !py_eq_str_false. }
  assert (E : Interferometer zero theta phi varphi (Many w) mesh bs q
              = (q ++ output_ops varphi w,
                 if len varphi <=? len w then inr tt else inl IndexError)).
  { destruct w as [|d w']; [unfold len in HN; cbn in HN; lia|].
    rewrite (Interferometer_layout W R G zero theta phi varphi (d :: w') mesh bs zero d q);
      try (now apply isinstance_Variable_false); try assumption;
      rewrite Hps; [reflexivity| |]; apply len_nonneg. }
  split; [exact E|split; [apply count_output_ops|]].
  intros Hlen. rewrite E. cbn [snd].
  destruct (Z.leb_spec (len varphi) (len w)); [reflexivity|lia].
Qed.

(** C6.  With [N >= 2] wires, a static [mesh] and [theta], [phi] of length at
    least [N(N-1)/2], the queue under [beamsplitter='clements'] is the queue
    under any other static convention (['standard'], the default
    ['pennylane'], ...) with every [Beamsplitter(theta[n], phi[n])] replaced
    by [Rotation(phi[n])] on its first wire followed by
    [Beamsplitter(theta[n], 0)]; both runs use the same placements, end the
    same way and queue the same number of beamsplitters. *)
Theorem C6_clements_convention
    (theta phi varphi : list R) (w : list W) (mesh bs : pyval) (r0 : R) (d : W) :
  2 <= len w ->
  len w * (len w - 1) / 2 <= len theta ->
  len w * (len w - 1) / 2 <= len phi ->
  mesh <> PyVariable -> bs <> PyVariable -> bs <> PyStr "clements" ->
  Interferometer (G:=G) zero theta phi varphi (Many w) mesh bs []
  = (mesh_ops zero bs theta phi w r0 d 0 (mesh_placements mesh (len w))
       ++ output_ops varphi w,
     if len varphi <=? len w then inr tt else inl IndexError)
  /\ Interferometer (G:=G) zero theta phi varphi (Many w) mesh (PyStr "clements") []
     = (mesh_ops zero (PyStr "clements") theta phi w r0 d 0 (mesh_placements mesh (len w))
          ++ output_ops varphi w,
        if len varphi <=? len w then inr tt else inl IndexError)
  /\ fst (Interferometer (G:=G) zero theta phi varphi (Many w) mesh (PyStr "clements") [])
     = flat_map (clements_of zero)
                (fst (Interferometer zero theta phi varphi (Many w) mesh bs []))
  /\ snd (Interferometer (G:=G) zero theta phi varphi (Many w) mesh (PyStr "clements") [])
     = snd (Interferometer (G:=G) zero theta phi varphi (Many w) mesh bs [])
  /\ count is_Beamsplitter
       (fst (Interferometer (G:=G) zero theta phi varphi (Many w) mesh (PyStr "clements") []))
     = count is_Beamsplitter
         (fst (Interferometer (G:=G) zero theta phi varphi (Many w) mesh bs [])).
Proof.
  intros HN Ht Hp Hmesh Hbs Hcl.
  pose proof (len_mesh_placements mesh (len w) HN) as Hlen.
  assert (Es := Interferometer_layout W R G zero theta phi varphi w mesh bs r0 d []
                  (isinstance_Variable_false _ Hbs) (isinstance_Variable_false _ Hmesh)
                  HN ltac:(lia) ltac:(lia)).
  assert (Ec := Interferometer_layout W R G zero theta phi varphi w mesh (PyStr "clements")
                  r0 d [] eq_refl (isinstance_Variable_false _ Hmesh)
                  HN ltac:(lia) ltac:(lia)).
  cbn [app] in Es, Ec. rewrite Es, Ec. cbn [fst snd].
  repeat split.
  - rewrite flat_map_app, output_ops_clements.
    now rewrite (mesh_ops_clements W R G zero bs) by (now apply py_eq_str_false).
  - rewrite !count_app, !count_mesh_ops. reflexivity.
Qed.

(** C7.  When [mesh] or [beamsplitter] is a [Variable], [Interferometer]
    raises [QuantumFunctionError] and leaves the queue as it found it. *)
Theorem C7_traced_selector_rejected
    (theta phi varphi : list R) (wires : wires_t W) (mesh bs : pyval) (q : list op) :
  mesh = PyVariable \/ bs = PyVariable ->
  exists msg,
    Interferometer zero theta phi varphi wires mesh bs q = (q, inl (QuantumFunctionError msg)).
Proof.
  intros [-> | ->].
  - destruct bs; [exists msg_mesh|exists msg_beamsplitter|exists msg_mesh]; reflexivity.
  - exists msg_beamsplitter. reflexivity.
Qed.

End InterferometerClaims.

(** ** The strongly entangling layers *)

Section EntanglingFacts.

Variables (W R G : Type).
Variable W_eq_dec : forall a b : W, {a = b} + {a <> b}.

Local Abbreviation op := (operation W R G).
Local Abbreviation Mq := (M W R G).

Lemma raises_only_ret {A : Type} P (a : A) : raises_only P (ret a : Mq A).
Proof. intros q q' e H. discriminate. Qed.

Lemma raises_only_emit P (o : op) : raises_only P (emit o).
Proof. intros q q' e H. discriminate. Qed.

Lemma raises_only_raise {A : Type} (P : exn -> Prop) e :
  P e -> raises_only P (raise e : Mq A).
Proof. intros He q q' e' H. inversion H; subst. exact He. Qed.

Lemma raises_only_apply_imprimitive (P : exn -> Prop) (imprimitive : G) (a b : W) :
  P (LibraryValueError OperationInit) ->
  raises_only P (apply_imprimitive (R:=R) W_eq_dec imprimitive a b).
Proof.
  intros HP. unfold apply_imprimitive. destruct (W_eq_dec a b);
    [now apply raises_only_raise|apply raises_only_emit].
Qed.

Lemma raises_only_bind {A B : Type} P (m : Mq A) (f : A -> Mq B) :
  raises_only P m -> (forall a, raises_only P (f a)) -> raises_only P (bind m f).
Proof.
  intros Hm Hf q q' e H. unfold bind in H.
  destruct (m q) as [q1 [e1|a]] eqn:E.
  - inversion H; subst. eapply Hm; eassumption.
  - eapply Hf; eassumption.
Qed.

Lemma raises_only_getitem {A : Type} (P : exn -> Prop) (l : list A) i :
  P IndexError -> raises_only P (getitem l i : Mq A).
Proof.
  intros HP. unfold getitem. destruct (py_index l i);
    [apply raises_only_ret|now apply raises_only_raise].
Qed.

Lemma raises_only_getitem2 {A : Type} (P : exn -> Prop) (m : list (list A)) i j :
  P IndexError -> raises_only P (getitem2 m i j : Mq A).
Proof.
  intros HP. unfold getitem2. destruct (py_index m i);
    [now apply raises_only_getitem|now apply raises_only_raise].
Qed.

Lemma raises_only_for {X S : Type} P (xs : list X) (body : X -> S -> Mq S) s :
  (forall x s, raises_only P (body x s)) -> raises_only P (for_ xs body s).
Proof.
  intros Hb. revert s. induction xs as [|x xs IH]; intros s; cbn [for_].
  - apply raises_only_ret.
  - apply raises_only_bind; [apply Hb|exact IH].
Qed.

Lemma In_enumerate_from {A : Type} (l : list A) (i0 i : Z) (x : A) :
  In (i, x) (enumerate_from i0 l) ->
  i0 <= i < i0 + len l /\ nth_error l (Z.to_nat (i - i0)) = Some x.
Proof.
  revert i0. induction l as [|y l IH]; intros i0; cbn [enumerate_from In]; [tauto|].
  unfold len. cbn [List.length]. intros [E|Hin].
  - inversion E; subst. replace (i - i) with 0 by lia. split; [lia|reflexivity].
  - apply IH in Hin. unfold len in Hin. destruct Hin as [Hi Hn]. split; [lia|].
    replace (Z.to_nat (i - i0)) with (S (Z.to_nat (i - (i0 + 1)))) by lia. exact Hn.
Qed.

Lemma flat_map_singleton {A B : Type} (f : A -> B) (l : list A) :
  flat_map (fun x => [f x]) l = map f l.
Proof. induction l as [|x l IH]; [reflexivity|]. cbn. now rewrite IH. Qed.

Lemma yields_getitem2 (m : list (list R)) (i j : Z) (r0 : R) :
  0 <= i < len m -> 0 <= j < len (nth (Z.to_nat i) m []) ->
  yields (getitem2 m i j : Mq R) [] (nth (Z.to_nat j) (nth (Z.to_nat i) m []) r0).
Proof.
  intros Hi Hj. unfold getitem2. rewrite (py_index_nth m i [] Hi).
  now apply yields_getitem.
Qed.

Lemma block_shape_row (n : Z) (weights : list (list R)) (i : Z) :
  block_shape n weights -> 0 <= i < n -> len (nth (Z.to_nat i) weights []) = 3.
Proof.
  intros [Hlen Hrows] Hi. rewrite Forall_forall in Hrows. apply Hrows.
  apply nth_In. unfold len in Hlen. lia.
Qed.

(** The rotation loop of a layer, lines 129-130. *)
Lemma yields_rot_loop (weights : list (list R)) (wires : list W) (r0 : R) :
  block_shape (len wires) weights ->
  yields (for_ (enumerate wires)
               (fun '(i, wire) _ =>
                  a <- getitem2 weights i 0 ;;
                  b <- getitem2 weights i 1 ;;
                  c <- getitem2 weights i 2 ;;
                  emit (G:=G) (Rot a b c (One wire))) tt)
         (rot_ops weights wires r0) tt.
Proof.
  intros Hshape. unfold rot_ops. rewrite <- flat_map_singleton.
  apply (yields_for_unit W R G (enumerate wires) _
           (fun x =>
              [(fun '(i, wire) =>
                  Rot (nth 0 (nth (Z.to_nat i) weights []) r0)
                      (nth 1 (nth (Z.to_nat i) weights []) r0)
                      (nth 2 (nth (Z.to_nat i) weights []) r0) (One wire)) x])).
  intros [i wire] Hin. apply In_enumerate_from in Hin. destruct Hin as [Hi _].
  pose proof (block_shape_row _ _ i Hshape ltac:(lia)) as Hrow.
  destruct Hshape as [Hlen _].
  intros q. unfold bind.
  rewrite (yields_getitem2 weights i 0 r0), (yields_getitem2 weights i 1 r0),
    (yields_getitem2 weights i 2 r0) by lia.
  rewrite !app_nil_r. reflexivity.
Qed.

(** Among pairwise different wires, the wire [r] places after wire [i] is
    another one unless [r] is a multiple of the number of wires. *)
Lemma shifted_wire_differs (wires : list W) (r i : Z) (d : W) :
  NoDup wires -> r mod len wires <> 0 -> 0 <= i < len wires ->
  nth (Z.to_nat i) wires d <> nth (Z.to_nat ((i + r) mod len wires)) wires d.
Proof.
  intros Hnd Hr Hi Heq.
  pose proof (Z.mod_pos_bound (i + r) (len wires) ltac:(lia)) as Hmod.
  unfold len in *. rewrite NoDup_nth in Hnd. apply Hnd in Heq; try lia.
  apply Hr. assert (E : (i + r) mod Z.of_nat (List.length wires) = i) by lia.
  pose proof (Z.div_mod (i + r) (Z.of_nat (List.length wires)) ltac:(lia)) as Hdm.
  rewrite E in Hdm.
  replace r with (((i + r) / Z.of_nat (List.length wires)) * Z.of_nat (List.length wires))
    by lia.
  apply Z.mod_mul. lia.
Qed.

(** The imprimitive loop of a layer, lines 132-134, when every gate is given
    two different wires. *)
Lemma yields_entangler_loop (r : Z) (imprimitive : G) (wires : list W) (d : W) :
  1 <= len wires -> NoDup wires -> r mod len wires <> 0 ->
  yields (for_ (range (len wires))
               (fun i _ =>
                  w1 <- getitem wires i ;;
                  w2 <- getitem wires ((i + r) mod len wires) ;;
                  apply_imprimitive (R:=R) W_eq_dec imprimitive w1 w2) tt)
         (entangler_ops r imprimitive wires d) tt.
Proof.
  intros Hn Hnd Hr. unfold entangler_ops. rewrite <- flat_map_singleton.
  apply (yields_for_unit W R G (range (len wires)) _
           (fun i => [Gate2 imprimitive
                        (Many [nth (Z.to_nat i) wires d;
                               nth (Z.to_nat ((i + r) mod len wires)) wires d])])).
  intros i Hin. apply In_range in Hin.
  pose proof (Z.mod_pos_bound (i + r) (len wires) ltac:(lia)) as Hmod.
  intros q. rewrite (getitem_bind W R G wires i d) by lia.
  rewrite (getitem_bind W R G wires ((i + r) mod len wires) d) by lia.
  unfold apply_imprimitive.
  destruct (W_eq_dec (nth (Z.to_nat i) wires d)
                     (nth (Z.to_nat ((i + r) mod len wires)) wires d)) as [Heq|_];
    [|reflexivity].
  exfalso. revert Heq. apply shifted_wire_differs; [assumption|assumption|lia].
Qed.

Lemma StronglyEntanglingLayer_layout
    (weights : list (list R)) (r : Z) (imprimitive : G) (wires : list W)
    (r0 : R) (d : W) (q : list op) :
  2 <= len wires -> block_shape (len wires) weights ->
  NoDup wires -> r mod len wires <> 0 ->
  StronglyEntanglingLayer W_eq_dec weights r imprimitive wires q
  = (q ++ layer_ops weights r imprimitive wires r0 d, inr tt).
Proof.
  intros Hn Hshape Hnd Hr. unfold StronglyEntanglingLayer, layer_ops.
  destruct (Z.ltb_spec (len wires) 2); [lia|].
  apply yields_bind with (a := tt).
  - now apply yields_rot_loop.
  - apply yields_entangler_loop; [lia|assumption|assumption].
Qed.



Lemma StronglyEntanglingLayer_raises_only
    (weights : list (list R)) (r : Z) (imprimitive : G) (wires : list W) :
  2 <= len wires ->
  raises_only (fun e => e = IndexError \/ e = LibraryValueError OperationInit)
              (StronglyEntanglingLayer W_eq_dec weights r imprimitive wires).
Proof.
  intros Hn. unfold StronglyEntanglingLayer.
  destruct (Z.ltb_spec (len wires) 2); [lia|].
  apply raises_only_bind; [|intros _]; apply raises_only_for.
  - intros [i wire] _. repeat (apply raises_only_bind;
      [apply raises_only_getitem2; now left|intros ?]). apply raises_only_emit.
  - intros i _. repeat (apply raises_only_bind;
      [apply raises_only_getitem; now left|intros ?]).
    apply raises_only_apply_imprimitive. now right.
Qed.

End EntanglingFacts.

Section EntanglingClaims.

Variables (W R G : Type).
Variable W_eq_dec : forall a b : W, {a = b} + {a <> b}.

Local Abbreviation op := (operation W R G).





End EntanglingClaims.

(** ** The random layer *)

Section RandomFacts.

Variables (W R G : Type).

Local Abbreviation op := (operation W R G).
Local Abbreviation Mq := (M W R G).

Lemma exceeds_zero (u : Q) : (0 < u)%Q -> exceeds u 0 = true.
Proof.
  intros Hu. unfold exceeds. destruct (Qle_bool u 0) eqn:E; [|reflexivity].
  apply Qle_bool_iff in E. exfalso. eapply Qlt_not_le; eassumption.
Qed.

Lemma yields_choice {A : Type} (a : list A) (pos : nat) (d : A) :
  a <> [] -> yields (choice a pos : Mq A) [] (nth (pos mod List.length a) a d).
Proof.
  intros Ha. unfold choice.
  assert (Hlt : (pos mod List.length a < List.length a)%nat).
  { apply Nat.mod_upper_bound. destruct a; [congruence|discriminate]. }
  rewrite (nth_error_nth' a d Hlt). apply yields_ret.
Qed.

(** A pass that takes the rotation branch. *)
Lemma body_rotation (weights : list R) (p : Q) (imprimitive : G) (rotations : list G)
    (wires : list W) (rng : nat -> draw W) (g0 : G) (x0 : R) (w0 : W) (t : nat) q :
  exceeds (d_u (rng t)) p = true ->
  rotations <> [] -> wires <> [] -> (t < List.length weights)%nat ->
  RandomLayer_body weights p imprimitive rotations wires (rng t) (Z.of_nat t) q
  = (q ++ [rotation_op weights rotations wires rng g0 x0 w0 t], inr (Z.of_nat t + 1)).
Proof.
  intros Hu Hr Hw Ht. unfold RandomLayer_body. rewrite Hu.
  unfold bind.
  rewrite (yields_choice rotations _ g0 Hr), (yields_choice wires _ w0 Hw).
  rewrite (yields_getitem W R G weights (Z.of_nat t) x0) by (unfold len; lia).
  rewrite !app_nil_r, Nat2Z.id. reflexivity.
Qed.

(** A pass that takes the rotation branch advances [i] by one, if it
    returns at all. *)
Lemma body_rotation_advances (weights : list R) (p : Q) (imprimitive : G)
    (rotations : list G) (wires : list W) (dr : draw W) (i : Z) q q' i' :
  exceeds (d_u dr) p = true ->
  RandomLayer_body weights p imprimitive rotations wires dr i q = (q', inr i') ->
  i' = i + 1.
Proof.
  intros Hu. unfold RandomLayer_body. rewrite Hu. unfold bind, emit, ret.
  destruct (choice rotations (d_gate dr) q) as [q1 [e|g]]; [discriminate|].
  destruct (choice wires (d_wire dr) q1) as [q2 [e|w]]; [discriminate|].
  destruct (getitem weights i q2) as [q3 [e|x]]; [discriminate|].
  intros H. inversion H. reflexivity.
Qed.

(** A pass that takes the imprimitive branch queues one gate and leaves [i]
    as it is. *)
Lemma body_imprimitive (weights : list R) (p : Q) (imprimitive : G)
    (rotations : list G) (wires : list W) (dr : draw W) (i : Z) q :
  exceeds (d_u dr) p = false ->
  RandomLayer_body weights p imprimitive rotations wires dr i q
  = (q ++ [Gate2 imprimitive (Many (firstn 2 (d_perm dr wires)))], inr i).
Proof. intros Hu. unfold RandomLayer_body. rewrite Hu. reflexivity. Qed.

(** On an empty palette the only exception of a pass is the one raised by
    [np.random.choice]. *)
Lemma body_raises_empty_palette (weights : list R) (p : Q) (imprimitive : G)
    (wires : list W) (dr : draw W) (i : Z) :
  raises_only (fun e => e = LibraryValueError NpRandomChoice)
              (RandomLayer_body weights p imprimitive [] wires dr i).
Proof.
  unfold RandomLayer_body. destruct (exceeds (d_u dr) p).
  - intros q q' e. unfold bind, choice. destruct (d_gate dr); cbn; congruence.
  - apply raises_only_bind; [apply raises_only_emit|intros _; apply raises_only_ret].
Qed.

(** The loop stops as soon as [i] has reached [len(weights)]. *)
Lemma loop_exit (fuel : nat) (weights : list R) (p : Q) (imprimitive : G)
    (rotations : list G) (wires : list W) (rng : nat -> draw W) (t : nat) (i : Z) q :
  len weights <= i ->
  RandomLayer_loop fuel weights p imprimitive rotations wires rng t i q = Some (q, inr i).
Proof.
  intros Hi. destruct fuel; cbn [RandomLayer_loop];
    destruct (Z.ltb_spec i (len weights)); (lia || reflexivity).
Qed.

(** When every draw exceeds the ratio, pass [t] queues the rotation for
    weight [t], and the loop ends after [len(weights)] passes. *)
Lemma loop_all_rotations (weights : list R) (p : Q) (imprimitive : G)
    (rotations : list G) (wires : list W) (rng : nat -> draw W)
    (g0 : G) (x0 : R) (w0 : W) :
  (forall t, exceeds (d_u (rng t)) p = true) ->
  rotations <> [] -> wires <> [] ->
  forall (k fuel t : nat) q,
    (t + k = List.length weights)%nat -> (k <= fuel)%nat ->
    RandomLayer_loop fuel weights p imprimitive rotations wires rng t (Z.of_nat t) q
    = Some (q ++ map (rotation_op weights rotations wires rng g0 x0 w0) (seq t k),
            inr (len weights)).
Proof.
  intros Hu Hr Hw. induction k as [|k IH]; intros fuel t q Hk Hfuel.
  - rewrite loop_exit by (unfold len; lia). cbn [seq map]. rewrite app_nil_r.
    unfold len. do 3 f_equal. lia.
  - destruct fuel as [|fuel]; [lia|]. cbn [RandomLayer_loop].
    destruct (Z.ltb_spec (Z.of_nat t) (len weights)) as [_|Hge];
      [|unfold len in Hge; lia].
    rewrite (body_rotation weights p imprimitive rotations wires rng g0 x0 w0 t q)
      by (auto; lia).
    replace (Z.of_nat t + 1) with (Z.of_nat (S t)) by lia.
    rewrite IH by lia. cbn [seq map]. rewrite <- app_assoc. reflexivity.
Qed.

(** With enough passes that exceed the ratio among the next [fuel] draws,
    the loop has finished after [fuel] passes. *)
Lemma loop_terminates (weights : list R) (p : Q) (imprimitive : G)
    (rotations : list G) (wires : list W) (rng : nat -> draw W) :
  forall (fuel t : nat) (i : Z) q,
    len weights - i <= Z.of_nat (rotation_draws p rng t fuel) ->
    exists r, RandomLayer_loop fuel weights p imprimitive rotations wires rng t i q = Some r.
Proof.
  induction fuel as [|fuel IH]; intros t i q Hdraws.
  - cbn [rotation_draws] in Hdraws. rewrite loop_exit by lia. eauto.
  - cbn [RandomLayer_loop]. destruct (Z.ltb_spec i (len weights)); [|eauto].
    cbn [rotation_draws] in Hdraws.
    destruct (exceeds (d_u (rng t)) p) eqn:Hu.
    + destruct (RandomLayer_body weights p imprimitive rotations wires (rng t) i q)
        as [q' [e|i']] eqn:Hb; [eauto|].
      apply body_rotation_advances in Hb; [|assumption]. subst i'.
      apply IH. lia.
    + rewrite body_imprimitive by assumption. apply IH. lia.
Qed.

(** When no draw exceeds the ratio, the loop never leaves a state with
    unconsumed weights. *)
Lemma loop_runs_forever (weights : list R) (p : Q) (imprimitive : G)
    (rotations : list G) (wires : list W) (rng : nat -> draw W) :
  (forall t, exceeds (d_u (rng t)) p = false) ->
  forall (fuel t : nat) (i : Z) q,
    i < len weights ->
    RandomLayer_loop fuel weights p imprimitive rotations wires rng t i q = None.
Proof.
  intros Hu. induction fuel as [|fuel IH]; intros t i q Hi; cbn [RandomLayer_loop];
    destruct (Z.ltb_spec i (len weights)); try lia; [reflexivity|].
  rewrite body_imprimitive by apply Hu. now apply IH.
Qed.

Lemma loop_raises_empty_palette (weights : list R) (p : Q) (imprimitive : G)
    (wires : list W) (rng : nat -> draw W) :
  forall (fuel t : nat) (i : Z) q q' e,
    RandomLayer_loop fuel weights p imprimitive [] wires rng t i q = Some (q', inl e) ->
    e = LibraryValueError NpRandomChoice.
Proof.
  induction fuel as [|fuel IH]; intros t i q q' e; cbn [RandomLayer_loop];
    destruct (i <? len weights); try discriminate.
  destruct (RandomLayer_body weights p imprimitive [] wires (rng t) i q)
    as [q1 [e1|i1]] eqn:Hb.
  - intros H. inversion H; subst. eapply body_raises_empty_palette; eassumption.
  - apply IH.
Qed.

(** On a non-empty palette and non-empty wires a pass raises nothing. *)
Lemma body_returns (weights : list R) (p : Q) (imprimitive : G)
    (rotations : list G) (wires : list W) (dr : draw W) (i : Z) q :
  rotations <> [] -> wires <> [] -> 0 <= i < len weights ->
  exists q' i',
    RandomLayer_body weights p imprimitive rotations wires dr i q = (q', inr i') /\ i <= i'.
Proof.
  intros Hr Hw Hi. destruct (exceeds (d_u dr) p) eqn:Hu.
  - destruct rotations as [|g0 gs] eqn:Er; [congruence|].
    destruct wires as [|w0 ws] eqn:Ew; [congruence|].
    destruct weights as [|x0 xs] eqn:Ex; [unfold len in Hi; cbn in Hi; lia|].
    rewrite <- Er, <- Ew, <- Ex in *.
    unfold RandomLayer_body. rewrite Hu. unfold bind.
    rewrite (yields_choice rotations _ g0 Hr), (yields_choice wires _ w0 Hw).
    rewrite (yields_getitem W R G weights i x0) by lia.
    cbn. eexists _, _. split; [reflexivity|lia].
  - rewrite body_imprimitive by assumption. eexists _, _. split; [reflexivity|lia].
Qed.

Lemma loop_no_exception (weights : list R) (p : Q) (imprimitive : G)
    (rotations : list G) (wires : list W) (rng : nat -> draw W) :
  rotations <> [] -> wires <> [] ->
  forall (fuel t : nat) (i : Z) q q' e,
    0 <= i ->
    RandomLayer_loop fuel weights p imprimitive rotations wires rng t i q
    <> Some (q', inl e).
Proof.
  intros Hr Hw. induction fuel as [|fuel IH]; intros t i q q' e Hi;
    cbn [RandomLayer_loop]; destruct (Z.ltb_spec i (len weights)); try discriminate.
  destruct (body_returns weights p imprimitive rotations wires (rng t) i q Hr Hw
              ltac:(lia)) as [q1 [i1 [E Hle]]].
  rewrite E. apply IH. lia.
Qed.

End RandomFacts.

Section RandomClaims.

Variables (W R G : Type).
Variable W_eq_dec : forall a b : W, {a = b} + {a <> b}.

Local Abbreviation op := (operation W R G).

Lemma count_rotation_ops (f : nat -> op) (l : list nat) :
  (forall j, is_Gate1 (f j) = true /\ is_Gate2 (f j) = false) ->
  count is_Gate1 (map f l) = len l /\ count is_Gate2 (map f l) = 0.
Proof.
  intros Hf. unfold count, len. induction l as [|j l [IH1 IH2]]; [split; reflexivity|].
  destruct (Hf j) as [H1 H2]. cbn [map filter]. rewrite H1, H2.
  cbn [List.length]. split; [lia|exact IH2].
Qed.

(** C4 (as the code has it).  On two or more wires, with a non-empty
    rotation palette, [ratio_imprim = 0] and every draw [u] strictly
    positive, [RandomLayer] ends after [K = len(weights)] passes having
    queued exactly [K] single-wire rotations, the [j]-th with [weights[j]],
    and no imprimitive gate. *)
Theorem C4_zero_ratio_positive_draws
    (weights : list R) (imprimitive : G) (rotations : list G) (wires : list W)
    (rng : nat -> draw W) (g0 : G) (x0 : R) (w0 : W) (fuel : nat) (q : list op) :
  2 <= len wires ->
  rotations <> [] ->
  (forall t, (0 < d_u (rng t))%Q) ->
  (List.length weights <= fuel)%nat ->
  RandomLayer fuel weights 0 imprimitive rotations wires rng q
  = Some (q ++ map (rotation_op weights rotations wires rng g0 x0 w0)
                   (seq 0 (List.length weights)),
          inr tt)
  /\ count is_Gate1 (map (rotation_op weights rotations wires rng g0 x0 w0)
                         (seq 0 (List.length weights)))
     = len weights
  /\ count is_Gate2 (map (rotation_op weights rotations wires rng g0 x0 w0)
                         (seq 0 (List.length weights)))
     = 0.
Proof.
  intros Hn Hr Hu Hfuel. split.
  - unfold RandomLayer. destruct (Z.ltb_spec (len wires) 2); [lia|].
    assert (Hw : wires <> []) by (intros ->; unfold len in Hn; cbn in Hn; lia).
    pose proof (loop_all_rotations W R G weights 0 imprimitive rotations wires rng g0 x0 w0
                  (fun t => exceeds_zero _ (Hu t)) Hr Hw (List.length weights) fuel 0%nat q
                  eq_refl Hfuel) as E.
    change (Z.of_nat 0) with 0 in E. rewrite E. reflexivity.
  - pose proof (count_rotation_ops (rotation_op weights rotations wires rng g0 x0 w0)
                  (seq 0 (List.length weights)) (fun j => conj eq_refl eq_refl)) as [H1 H2].
    split; [|exact H2]. rewrite H1. unfold len. now rewrite length_seq.
Qed.

(** C5 (as the code has it).  A pass of the [RandomLayer] loop that takes
    the rotation branch advances the counter by one, a pass that takes the
    imprimitive branch leaves it unchanged, and the loop stops once the
    counter has reached [len(weights)]; so the loop terminates whenever the
    draws contain [len(weights)] values that exceed [ratio_imprim]. *)
Theorem C5_loop_terminates_given_rotation_draws
    (weights : list R) (p : Q) (imprimitive : G) (rotations : list G) (wires : list W)
    (rng : nat -> draw W) (q : list op) :
  (exists T, len weights <= Z.of_nat (rotation_draws p rng 0 T)) ->
  (exists fuel r, RandomLayer fuel weights p imprimitive rotations wires rng q = Some r)
  /\ (forall dr i q0 q' i',
        exceeds (d_u dr) p = true ->
        RandomLayer_body weights p imprimitive rotations wires dr i q0 = (q', inr i') ->
        i' = i + 1)
  /\ (forall dr i (q0 : list op),
        exceeds (d_u dr) p = false ->
        RandomLayer_body weights p imprimitive rotations wires dr i q0
        = (q0 ++ [Gate2 imprimitive (Many (firstn 2 (d_perm dr wires)))], inr i))
  /\ (forall fuel t i (q0 : list op),
        len weights <= i ->
        RandomLayer_loop fuel weights p imprimitive rotations wires rng t i q0
        = Some (q0, inr i)).
Proof.
  intros [T HT]. split; [|split; [|split]].
  - exists T. unfold RandomLayer. destruct (len wires <? 2); [eauto|].
    destruct (loop_terminates W R G weights p imprimitive rotations wires rng T 0%nat 0 q)
      as [[q' [e|i]] E]; [lia| |]; rewrite E; eauto.
  - intros dr i q0 q' i'. apply body_rotation_advances.
  - intros dr i q0. apply body_imprimitive.
  - intros fuel t i q0. apply loop_exit.
Qed.

(** C9.  On fewer than two wires, [StronglyEntanglingLayer] and
    [RandomLayer] raise their [ValueError] about the number of wires and
    leave the queue as they found it.  On two or more wires neither raises
    it: whatever exception a call ends in is another one. *)
Theorem C9_wires_check
    (weights2 : list (list R)) (r : Z) (weights1 : list R) (p : Q)
    (imprimitive : G) (rotations : list G) (wires : list W)
    (rng : nat -> draw W) (fuel : nat) (q : list op) :
  (len wires < 2 ->
   StronglyEntanglingLayer W_eq_dec weights2 r imprimitive wires q
   = (q, inl (ValueError msg_sel_wires))
   /\ RandomLayer fuel weights1 p imprimitive rotations wires rng q
      = Some (q, inl (ValueError msg_rl_wires)))
  /\ (2 <= len wires ->
      (forall q' e, StronglyEntanglingLayer W_eq_dec weights2 r imprimitive wires q
                    = (q', inl e) ->
                    e <> ValueError msg_sel_wires)
      /\ (forall q' e, RandomLayer fuel weights1 p imprimitive rotations wires rng q
                       = Some (q', inl e) ->
                       e <> ValueError msg_rl_wires)).
Proof.
  split.
  - intros Hn. unfold StronglyEntanglingLayer, RandomLayer.
    destruct (Z.ltb_spec (len wires) 2); [split; reflexivity|lia].
  - intros Hn. split.
    + intros q' e H.
      apply (StronglyEntanglingLayer_raises_only W R G W_eq_dec weights2 r imprimitive
               wires Hn) in H.
      destruct H as [-> | ->]; discriminate.
    + intros q' e. unfold RandomLayer. destruct (Z.ltb_spec (len wires) 2); [lia|].
      destruct (RandomLayer_loop fuel weights1 p imprimitive rotations wires rng 0 0 q)
        as [[q1 [e1|i1]]|] eqn:E; try discriminate.
      intros Hres. inversion Hres; subst.
      assert (Hw : wires <> []) by (intros ->; unfold len in Hn; cbn in Hn; lia).
      destruct rotations as [|g gs] eqn:Er.
      * apply loop_raises_empty_palette in E. subst e. discriminate.
      * exfalso. eapply (loop_no_exception W R G weights1 p imprimitive (g :: gs) wires rng);
          [discriminate|exact Hw| |exact E]. lia.
Qed.

End RandomClaims.

(** ** The claims on concrete inputs *)

Lemma C1_rectangular_mesh_witness :
  2 <= len [0; 1; 2; 3]
  /\ Interferometer (G:=gate_class) 0 [10; 11; 12; 13; 14; 15] [20; 21; 22; 23; 24; 25]
                    [30; 31; 32; 33] (Many [0; 1; 2; 3])
                    (PyStr "rectangular") (PyStr "pennylane") []
     = ([Beamsplitter 10 20 (Many [0; 1]); Beamsplitter 11 21 (Many [2; 3]);
         Beamsplitter 12 22 (Many [1; 2]);
         Beamsplitter 13 23 (Many [0; 1]); Beamsplitter 14 24 (Many [2; 3]);
         Beamsplitter 15 25 (Many [1; 2]);
         Rotation 30 (Many [0]); Rotation 31 (Many [1]);
         Rotation 32 (Many [2]); Rotation 33 (Many [3])],
        inr tt).
Proof.
  split; [unfold len; cbn; lia|].
  destruct (C1_rectangular_mesh Z Z gate_class 0
              [10; 11; 12; 13; 14; 15] [20; 21; 22; 23; 24; 25] [30; 31; 32; 33]
              [0; 1; 2; 3] (PyStr "pennylane") 0 0 []) as [E _].
  - unfold len; cbn; lia.
  - vm_compute; discriminate.
  - vm_compute; discriminate.
  - discriminate.
  - rewrite E. reflexivity.
Defined.

Lemma C2_triangular_mesh_witness :
  2 <= len [0; 1; 2; 3]
  /\ Interferometer (G:=gate_class) 0 [10; 11; 12; 13; 14; 15] [20; 21; 22; 23; 24; 25]
                    [30; 31; 32] (Many [0; 1; 2; 3])
                    (PyStr "triangular") (PyStr "pennylane") []
     = ([Beamsplitter 10 20 (Many [2; 3]);
         Beamsplitter 11 21 (Many [1; 2]);
         Beamsplitter 12 22 (Many [0; 1]); Beamsplitter 13 23 (Many [2; 3]);
         Beamsplitter 14 24 (Many [1; 2]);
         Beamsplitter 15 25 (Many [2; 3]);
         Rotation 30 (Many [0]); Rotation 31 (Many [1]); Rotation 32 (Many [2])],
        inr tt).
Proof.
  split; [unfold len; cbn; lia|].
  destruct (C2_triangular_mesh Z Z gate_class 0
              [10; 11; 12; 13; 14; 15] [20; 21; 22; 23; 24; 25] [30; 31; 32]
              [0; 1; 2; 3] (PyStr "pennylane") 0 0 []) as [E _].
  - unfold len; cbn; lia.
  - vm_compute; discriminate.
  - vm_compute; discriminate.
  - discriminate.
  - rewrite E. reflexivity.
Defined.

(** An unrecognised [mesh] raises nothing: the call queues the output
    rotations and returns. *)
Lemma C3_unrecognised_mesh_counterexample :
  Interferometer (G:=gate_class) 0 [10] [20] [30; 31] (Many [0; 1])
                 (PyStr "hexagonal") (PyStr "pennylane") []
  = ([Rotation 30 (Many [0]); Rotation 31 (Many [1])], inr tt).
Proof. reflexivity. Qed.

Lemma C3_unrecognised_mesh_witness :
  2 <= len [0; 1; 2]
  /\ Interferometer (G:=gate_class) 0 [10; 11; 12] [20; 21; 22] [30; 31; 32]
                    (Many [0; 1; 2]) (PyStr "ring") (PyStr "clements") []
     = ([Rotation 30 (Many [0]); Rotation 31 (Many [1]); Rotation 32 (Many [2])], inr tt).
Proof.
  split; [unfold len; cbn; lia|].
  destruct (C3_unrecognised_mesh_is_skipped Z Z gate_class 0
              [10; 11; 12] [20; 21; 22] [30; 31; 32] [0; 1; 2]
              (PyStr "ring") (PyStr "clements") []) as [E _].
  - unfold len; cbn; lia.
  - discriminate.
  - discriminate.
  - discriminate.
  - discriminate.
  - rewrite E. reflexivity.
Defined.

(** With [ratio_imprim = 0] a draw of exactly 0.0 takes the imprimitive
    branch, and an empty palette makes [np.random.choice] fail. *)
Lemma C4_zero_ratio_counterexample :
  (forall t, draw_ok [0; 1] (draws_zero_first t))
  /\ RandomLayer 2 [7] 0 CNOT [RX; RY; RZ] [0; 1] draws_zero_first []
     = Some ([Gate2 CNOT (Many [0; 1]); Gate1 RX 7 (One 0)], inr tt)
  /\ (forall t, draw_ok [0; 1] (draws_half t))
  /\ RandomLayer 1 [7] 0 CNOT [] [0; 1] draws_half []
     = Some ([], inl (LibraryValueError NpRandomChoice)).
Proof.
  split; [|split; [reflexivity|split; [|reflexivity]]].
  - intros [|t]; (split; [|split]); try (vm_compute; congruence); apply Permutation_refl.
  - intros t; (split; [|split]); try (vm_compute; congruence); apply Permutation_refl.
Qed.

Lemma C4_zero_ratio_positive_draws_witness :
  2 <= len [0; 1; 2]
  /\ RandomLayer 5 [7; 8] 0 CNOT [RX; RY; RZ] [0; 1; 2] draws_half []
     = Some ([Gate1 RX 7 (One 0); Gate1 RX 8 (One 0)], inr tt).
Proof.
  split; [unfold len; cbn; lia|].
  destruct (C4_zero_ratio_positive_draws Z Z gate_class [7; 8] CNOT [RX; RY; RZ]
              [0; 1; 2] draws_half RX 0 0 5%nat []) as [E _].
  - unfold len; cbn; lia.
  - discriminate.
  - intros t. reflexivity.
  - cbn; lia.
  - rewrite E. reflexivity.
Defined.

(** With [ratio_imprim = 1] no draw from [0, 1) exceeds the ratio and the
    loop never ends. *)
Lemma C5_loop_counterexample :
  (forall t, draw_ok [0; 1] (draws_half t))
  /\ ~ (exists fuel r,
          RandomLayer fuel [7] 1 CNOT [RX; RY; RZ] [0; 1] draws_half [] = Some r).
Proof.
  split.
  - intros t; (split; [|split]); try (vm_compute; congruence); apply Permutation_refl.
  - intros [fuel [r Hr]]. unfold RandomLayer in Hr. cbn [len List.length Z.of_nat] in Hr.
    change (Z.pos (Pos.of_succ_nat 1) <? 2) with false in Hr. cbv iota in Hr.
    rewrite (loop_runs_forever Z Z gate_class [7] 1 CNOT [RX; RY; RZ] [0; 1] draws_half)
      in Hr; [discriminate|reflexivity|reflexivity].
Qed.

Lemma C5_loop_terminates_witness :
  len [7; 8] <= Z.of_nat (rotation_draws (3 # 10) draws_half 0 2)
  /\ exists fuel r,
       RandomLayer fuel [7; 8] (3 # 10) CNOT [RX; RY; RZ] [0; 1; 2] draws_half [] = Some r.
Proof.
  split; [vm_compute; discriminate|].
  apply (C5_loop_terminates_given_rotation_draws Z Z gate_class [7; 8] (3 # 10) CNOT
           [RX; RY; RZ] [0; 1; 2] draws_half []).
  exists 2%nat. vm_compute; discriminate.
Defined.

Lemma C6_clements_convention_witness :
  2 <= len [0; 1; 2]
  /\ fst (Interferometer (G:=gate_class) 0 [10; 11; 12] [20; 21; 22] [30; 31; 32]
                         (Many [0; 1; 2]) (PyStr "rectangular") (PyStr "clements") [])
     = flat_map (clements_of 0)
                [Beamsplitter 10 20 (Many [0; 1]); Beamsplitter 11 21 (Many [1; 2]);
                 Beamsplitter 12 22 (Many [0; 1]);
                 Rotation 30 (Many [0]); Rotation 31 (Many [1]); Rotation 32 (Many [2])].
Proof.
  split; [unfold len; cbn; lia|].
  destruct (C6_clements_convention Z Z gate_class 0
              [10; 11; 12] [20; 21; 22] [30; 31; 32] [0; 1; 2]
              (PyStr "rectangular") (PyStr "standard") 0 0) as [_ [_ [E _]]].
  - unfold len; cbn; lia.
  - vm_compute; discriminate.
  - vm_compute; discriminate.
  - discriminate.
  - discriminate.
  - discriminate.
  - rewrite E. reflexivity.
Defined.

Lemma C7_traced_selector_rejected_witness :
  exists msg,
    Interferometer (G:=gate_class) 0 [10] [20] [30; 31] (Many [0; 1])
                   PyVariable (PyStr "pennylane") []
    = ([], inl (QuantumFunctionError msg)).
Proof.
  apply (C7_traced_selector_rejected Z Z gate_class 0 [10] [20] [30; 31] (Many [0; 1])
           PyVariable (PyStr "pennylane") []).
  left. reflexivity.
Defined.



Lemma C9_wires_check_witness :
  len [0] < 2
  /\ (StronglyEntanglingLayer Z.eq_dec [[1; 2; 3]] 1 CNOT [0] []
      = ([], inl (ValueError msg_sel_wires))
      /\ RandomLayer 3 [7] (3 # 10) CNOT [RX; RY; RZ] [0] draws_half []
         = Some ([], inl (ValueError msg_rl_wires)))
  /\ 2 <= len [0; 1]
  /\ (forall q' e,
        StronglyEntanglingLayer Z.eq_dec [[1; 2; 3]; [4; 5; 6]] 2 CNOT [0; 1] []
        = (q', inl e) ->
        e <> ValueError msg_sel_wires).
Proof.
  split; [unfold len; cbn; lia|]. split; [|split; [unfold len; cbn; lia|]].
  - apply (proj1 (C9_wires_check Z Z gate_class Z.eq_dec [[1; 2; 3]] 1 [7] (3 # 10) CNOT
                    [RX; RY; RZ] [0] draws_half 3%nat [])).
    unfold len; cbn; lia.
  - apply (proj2 (C9_wires_check Z Z gate_class Z.eq_dec [[1; 2; 3]; [4; 5; 6]] 2 [7]
                    (3 # 10) CNOT [RX; RY; RZ] [0; 1] draws_half 3%nat [])).
    unfold len; cbn; lia.
Defined.



(** ** Further properties of [Interferometer] *)

Section InterferometerEdges.

Variables (W R G : Type).
Variable zero : R.

Local Abbreviation op := (operation W R G).
Local Abbreviation Mq := (M W R G).

(** A loop stops at the first element whose body raises. *)
Lemma for_raises {X S : Type} (xs ys : list X) (x : X) (body : X -> S -> Mq S)
    (s s1 : S) (q q1 q2 : list op) (e : exn) :
  for_ xs body s q = (q1, inr s1) ->
  body x s1 q1 = (q2, inl e) ->
  for_ (xs ++ x :: ys) body s q = (q2, inl e).
Proof.
  intros Hxs Hx. rewrite for_app. unfold bind. rewrite Hxs.
  cbn [for_]. unfold bind. now rewrite Hx.
Qed.

Lemma bind_cong_r {A B : Type} (m : Mq A) (k1 k2 : A -> Mq B) (q : list op) :
  (forall a q', k1 a q' = k2 a q') -> bind m k1 q = bind m k2 q.
Proof. intros Hk. unfold bind. destruct (m q) as [q1 [e|a]]; [reflexivity|apply Hk]. Qed.

(** X1.  On a single wire, given bare or as a one-element sequence, and with
    static selectors, [Interferometer] queues the one rotation
    [Rotation(varphi[0], wires=w[0])] and nothing else, whatever [theta],
    [phi], [mesh] and the rest of [varphi] are; an empty [varphi] is an
    [IndexError] with nothing queued. *)
Theorem X1_single_wire
    (theta phi varphi : list R) (wires : wires_t W) (x : W) (mesh bs : pyval)
    (q : list op) :
  wires = One x \/ wires = Many [x] ->
  mesh <> PyVariable -> bs <> PyVariable ->
  Interferometer zero theta phi varphi wires mesh bs q
  = match varphi with
    | [] => (q, inl IndexError)
    | p :: _ => (q ++ [Rotation p (One x)], inr tt)
    end.
Proof.
  intros Hw Hmesh Hbs. unfold Interferometer.
  rewrite (isinstance_Variable_false _ Hbs), (isinstance_Variable_false _ Hmesh).
  assert (Hone : match wires with One y => [y] | Many ws => ws end = [x])
    by (destruct Hw as [-> | ->]; reflexivity).
  rewrite Hone. destruct varphi as [|p varphi]; reflexivity.
Qed.

Lemma output_ops_by_position (varphi : list R) (w : list W) (r0 : R) (d : W) :
  output_ops (G:=G) varphi w
  = map (fun i => Rotation (nth i varphi r0) (Many [nth i w d]))
        (seq 0 (Nat.min (List.length varphi) (List.length w))).
Proof.
  unfold output_ops. revert w. induction varphi as [|p varphi IH]; intros w; [reflexivity|].
  destruct w as [|x w]; [reflexivity|].
  cbn [combine map List.length Nat.min seq nth]. rewrite IH, <- seq_shift, map_map.
  reflexivity.
Qed.

(** With two or more wires and static selectors, the run is the loop over
    the selected placements followed by the loop over [varphi]. *)
Lemma Interferometer_as_placements (theta phi varphi : list R) (w : list W)
    (mesh bs : pyval) (d : W) (q : list op) :
  isinstance_Variable bs = false ->
  isinstance_Variable mesh = false ->
  2 <= len w ->
  Interferometer zero theta phi varphi (Many w) mesh bs q
  = bind (for_ (mesh_placements mesh (len w))
               (placement_body (G:=G) zero bs theta phi w d) 0)
         (fun _ => for_ (enumerate varphi)
                        (fun '(i, p) _ =>
                           wi <- getitem w i ;; emit (Rotation p (Many [wi]))) tt) q.
Proof.
  intros Hbs Hmesh HN. unfold Interferometer. rewrite Hbs, Hmesh.
  destruct (Z.eqb_spec (len w) 1) as [E|_]; [lia|].
  unfold mesh_placements, bind.
  destruct (py_eq_str mesh "rectangular").
  - now rewrite (rectangular_loop W R G zero bs theta phi w d).
  - destruct (py_eq_str mesh "triangular").
    + now rewrite (triangular_loop W R G zero bs theta phi w d).
    + reflexivity.
Qed.

(** X2.  With two or more wires, static selectors and [theta], [phi] of
    length at least [N(N-1)/2], the beamsplitter array is followed by
    [min(len(varphi), N)] output rotations, the [i]-th being
    [Rotation(varphi[i])] on [w[i]]; the call returns normally exactly when
    [varphi] has at most [N] entries, and otherwise raises [IndexError] after
    all of these operations have been queued. *)
Theorem X2_output_rotations
    (theta phi varphi : list R) (w : list W) (mesh bs : pyval) (r0 : R) (d : W)
    (q : list op) :
  2 <= len w ->
  len w * (len w - 1) / 2 <= len theta ->
  len w * (len w - 1) / 2 <= len phi ->
  mesh <> PyVariable -> bs <> PyVariable ->
  Interferometer zero theta phi varphi (Many w) mesh bs q
  = (q ++ mesh_ops zero bs theta phi w r0 d 0 (mesh_placements mesh (len w))
       ++ map (fun i => Rotation (nth i varphi r0) (Many [nth i w d]))
              (seq 0 (Nat.min (List.length varphi) (List.length w))),
     if len varphi <=? len w then inr tt else inl IndexError)
  /\ (snd (Interferometer zero theta phi varphi (Many w) mesh bs q) = inr tt
      <-> len varphi <= len w).
Proof.
  intros HN Ht Hp Hmesh Hbs.
  pose proof (len_mesh_placements mesh (len w) HN) as Hlen.
  pose proof (Interferometer_layout W R G zero theta phi varphi w mesh bs r0 d q
                (isinstance_Variable_false _ Hbs) (isinstance_Variable_false _ Hmesh)
                HN ltac:(lia) ltac:(lia)) as E.
  rewrite (output_ops_by_position varphi w r0 d) in E. rewrite E. split; [reflexivity|].
  cbn [snd]. destruct (Z.leb_spec (len varphi) (len w)); split; intros H';
    (reflexivity || lia || discriminate).
Qed.

(** An element whose angle is missing raises before anything is queued,
    except under the Clements convention when only [theta[n]] is missing. *)
Lemma two_mode_element_raises bs (theta phi : list R) (n : Z) (w1 w2 : W) (q : list op) :
  Z.min (len theta) (len phi) <= n ->
  py_eq_str bs "clements" = false \/ len phi <= len theta ->
  two_mode_element zero bs theta phi n w1 w2 q = (q, inl IndexError).
Proof.
  intros Hn Hc. unfold two_mode_element, bind, getitem.
  destruct (py_eq_str bs "clements") eqn:Ebs.
  - destruct Hc as [Hc|Hc]; [discriminate|].
    rewrite (py_index_out phi n) by lia. reflexivity.
  - destruct (Z.le_gt_cases (len theta) n) as [Ht|Ht].
    + rewrite (py_index_out theta n) by lia. reflexivity.
    + destruct (py_index theta n) as [t|]; [|reflexivity].
      rewrite (py_index_out phi n) by lia. reflexivity.
Qed.

Lemma two_mode_element_stray (theta phi : list R) (n : Z) (w1 w2 : W) (r0 : R)
    (q : list op) :
  len theta <= n < len phi ->
  two_mode_element zero (PyStr "clements") theta phi n w1 w2 q
  = (q ++ [Rotation (nth (Z.to_nat n) phi r0) (Many [w1])], inl IndexError).
Proof.
  intros Hn. pose proof (len_nonneg theta).
  unfold two_mode_element, bind, getitem. cbn [py_eq_str String.eqb].
  change (String.eqb "clements" "clements") with true. cbv iota.
  rewrite (py_index_nth phi n r0) by lia. unfold ret, emit.
  rewrite (py_index_out theta n) by lia. reflexivity.
Qed.

Lemma split_at {A : Type} (l : list A) (m : nat) (a : A) :
  (m < List.length l)%nat ->
  l = firstn m l ++ nth m l a :: skipn (S m) l.
Proof.
  revert m. induction l as [|x l IH]; intros m Hm; [cbn in Hm; lia|].
  destruct m as [|m]; [reflexivity|]. cbn [firstn nth skipn app]. f_equal.
  apply IH. cbn in Hm. lia.
Qed.

(** The loop over the placements when the angles run out at [m]. *)
Lemma placements_run_out bs (theta phi : list R) (w : list W) (r0 : R) (d : W)
    (ps : list (Z * Z)) (m : nat) (q : list op) (q2 : W -> list op) :
  Z.of_nat m <= len theta -> Z.of_nat m <= len phi -> (m < List.length ps)%nat ->
  (forall w1 w2 q1,
      two_mode_element zero bs theta phi (Z.of_nat m) w1 w2 q1 = (q1 ++ q2 w1, inl IndexError)) ->
  for_ ps (placement_body (G:=G) zero bs theta phi w d) 0 q
  = (q ++ mesh_ops zero bs theta phi w r0 d 0 (firstn m ps)
       ++ q2 (nth (Z.to_nat (snd (nth m ps (0, 0)))) w d),
     inl IndexError).
Proof.
  intros Ht Hp Hm Hfail.
  rewrite (split_at ps m (0, 0) Hm) at 1.
  assert (Hlen : len (firstn m ps) = Z.of_nat m).
  { unfold len. rewrite length_firstn. lia. }
  apply for_raises with (s1 := 0 + len (firstn m ps))
                        (q1 := q ++ mesh_ops zero bs theta phi w r0 d 0 (firstn m ps)).
  - apply yields_placements; lia.
  - unfold placement_body, bind. rewrite Hlen. cbn [Z.add].
    rewrite Hfail. now rewrite app_assoc.
Qed.

(** X3.  With two or more wires and static selectors, when [theta] or [phi]
    has fewer entries than the mesh has placements, [min(len(theta),
    len(phi))] elements are queued and the next one raises [IndexError]
    before queuing anything; no output rotation is queued.  This holds for
    every convention other than ['clements'], and for ['clements'] when
    [phi] is no longer than [theta]. *)
Theorem X3_angles_run_out
    (theta phi varphi : list R) (w : list W) (mesh bs : pyval) (r0 : R) (d : W)
    (q : list op) :
  2 <= len w ->
  mesh <> PyVariable -> bs <> PyVariable ->
  bs <> PyStr "clements" \/ len phi <= len theta ->
  Z.min (len theta) (len phi) < len (mesh_placements mesh (len w)) ->
  Interferometer zero theta phi varphi (Many w) mesh bs q
  = (q ++ mesh_ops zero bs theta phi w r0 d 0
            (firstn (Z.to_nat (Z.min (len theta) (len phi)))
                    (mesh_placements mesh (len w))),
     inl IndexError)
  /\ count is_Beamsplitter
       (mesh_ops (G:=G) zero bs theta phi w r0 d 0
                 (firstn (Z.to_nat (Z.min (len theta) (len phi)))
                         (mesh_placements mesh (len w))))
     = Z.min (len theta) (len phi).
Proof.
  intros HN Hmesh Hbs Hc Hshort.
  pose proof (len_nonneg theta). pose proof (len_nonneg phi).
  set (m := Z.to_nat (Z.min (len theta) (len phi))).
  assert (Hm : Z.of_nat m = Z.min (len theta) (len phi)) by (unfold m; lia).
  split.
  - rewrite (Interferometer_as_placements theta phi varphi w mesh bs d q)
      by (try apply isinstance_Variable_false; assumption).
    unfold bind.
    rewrite (placements_run_out bs theta phi w r0 d (mesh_placements mesh (len w)) m q
               (fun _ => [])).
    + now rewrite app_nil_r.
    + lia.
    + lia.
    + unfold len in *. lia.
    + intros w1 w2 q1. rewrite app_nil_r. apply two_mode_element_raises; [lia|].
      destruct Hc as [Hc|Hc]; [left; now apply py_eq_str_false|now right].
  - rewrite count_mesh_ops. unfold len at 1. rewrite length_firstn.
    fold m. unfold len in *. lia.
Qed.

(** X4.  Under the Clements convention, when [theta] is shorter than [phi]
    and than the mesh needs, the element at which [theta] runs out has
    already queued its rotation [Rotation(phi[n])] when [theta[n]] raises
    [IndexError]: the queue ends with a rotation that no beamsplitter
    follows. *)
Theorem X4_clements_stray_rotation
    (theta phi varphi : list R) (w : list W) (mesh : pyval) (r0 : R) (d : W)
    (q : list op) :
  2 <= len w ->
  mesh <> PyVariable ->
  len theta < len phi ->
  len theta < len (mesh_placements mesh (len w)) ->
  Interferometer zero theta phi varphi (Many w) mesh (PyStr "clements") q
  = (q ++ mesh_ops zero (PyStr "clements") theta phi w r0 d 0
            (firstn (List.length theta) (mesh_placements mesh (len w)))
       ++ [Rotation (nth (List.length theta) phi r0)
                    (Many [nth (Z.to_nat (snd (nth (List.length theta)
                                                   (mesh_placements mesh (len w)) (0, 0))))
                               w d])],
     inl IndexError).
Proof.
  intros HN Hmesh Hphi Hshort.
  rewrite (Interferometer_as_placements theta phi varphi w mesh (PyStr "clements") d q)
    by (try apply isinstance_Variable_false; (assumption || discriminate)).
  unfold bind.
  rewrite (placements_run_out (PyStr "clements") theta phi w r0 d
             (mesh_placements mesh (len w)) (List.length theta) q
             (fun w1 => [Rotation (nth (List.length theta) phi r0) (Many [w1])])).
  - reflexivity.
  - unfold len. lia.
  - unfold len in *. lia.
  - unfold len in *. lia.
  - intros w1 w2 q1.
    rewrite (two_mode_element_stray theta phi (Z.of_nat (List.length theta)) w1 w2 r0 q1)
      by (unfold len in *; lia).
    now rewrite Nat2Z.id.
Qed.

(** X5.  Every static [beamsplitter] value other than ['clements'] selects
    the same circuit: an unrecognised convention is not an error but the
    default one. *)
Theorem X5_unrecognised_beamsplitter_is_default
    (theta phi varphi : list R) (wires : wires_t W) (mesh bs1 bs2 : pyval) (q : list op) :
  bs1 <> PyVariable -> bs1 <> PyStr "clements" ->
  bs2 <> PyVariable -> bs2 <> PyStr "clements" ->
  Interferometer zero theta phi varphi wires mesh bs1 q
  = Interferometer zero theta phi varphi wires mesh bs2 q.
Proof.
  intros Hv1 Hc1 Hv2 Hc2.
  assert (Hel : forall n (w1 w2 : W) q',
             two_mode_element (G:=G) zero bs1 theta phi n w1 w2 q'
             = two_mode_element zero bs2 theta phi n w1 w2 q').
  { intros n w1 w2 q'. unfold two_mode_element.
    now rewrite (py_eq_str_false bs1), (py_eq_str_false bs2). }
  unfold Interferometer.
  rewrite (isinstance_Variable_false _ Hv1), (isinstance_Variable_false _ Hv2).
  destruct (isinstance_Variable mesh); [reflexivity|].
  destruct (len _ =? 1); [reflexivity|].
  assert (Hbind : forall (m1 m2 : Mq Z) (k : Z -> Mq unit) q0,
             m1 q0 = m2 q0 -> bind m1 k q0 = bind m2 k q0).
  { intros m1 m2 k q0 E. unfold bind. now rewrite E. }
  apply Hbind.
  destruct (py_eq_str mesh "rectangular"); [|destruct (py_eq_str mesh "triangular")].
  - apply for_ext. intros l n q1 _. apply for_ext. intros [k [w1 w2]] n1 q2 _.
    destruct (negb _); [|reflexivity]. unfold bind. now rewrite Hel.
  - apply for_ext. intros l n q1 _. apply for_ext. intros k n1 q2 _.
    unfold bind. destruct (getitem _ k q2) as [q3 [e|w1]]; [reflexivity|].
    destruct (getitem _ (k + 1) q3) as [q4 [e|w2]]; [reflexivity|].
    now rewrite Hel.
  - reflexivity.
Qed.

End InterferometerEdges.

(** ** Further properties of the two meshes *)

Lemma range_head (n : Z) : 1 <= n -> exists tl, range n = 0 :: tl.
Proof.
  intros Hn. replace n with (Z.of_nat (S (Z.to_nat (n - 1)))) by lia.
  rewrite range_of_nat. cbn [seq map]. eauto.
Qed.

Lemma range3_one (a b : Z) : 1 <= b - a <= 2 -> range3 a b 2 = [a].
Proof.
  intros Hab. unfold range3.
  replace ((b - a + 2 - 1) / 2) with 1 by dlia.
  change (Z.to_nat 1) with 1%nat. cbn [seq map]. f_equal. lia.
Qed.

Lemma range3_two (a b : Z) : 3 <= b - a <= 4 -> range3 a b 2 = [a; a + 2].
Proof.
  intros Hab. unfold range3.
  replace ((b - a + 2 - 1) / 2) with 2 by dlia.
  change (Z.to_nat 2) with 2%nat. cbn [seq map]. repeat (f_equal; try lia).
Qed.

Lemma mesh_ops_cons {W R G : Type} (zero : R) bs (theta phi : list R) (w : list W)
    (r0 : R) (d : W) (n0 l k : Z) (ps : list (Z * Z)) :
  mesh_ops (G:=G) zero bs theta phi w r0 d n0 ((l, k) :: ps)
  = element_ops zero bs (nth (Z.to_nat n0) theta r0) (nth (Z.to_nat n0) phi r0)
                (nth (Z.to_nat k) w d) (nth (Z.to_nat (k + 1)) w d)
    ++ mesh_ops zero bs theta phi w r0 d (n0 + 1) ps.
Proof. reflexivity. Qed.

(** X6.  In either mesh the elements of one layer sit at positions [k] that
    are pairwise at least two apart, so no two elements of a layer share a
    wire. *)
Theorem X6_layers_touch_each_wire_once (N l k k' : Z) :
  (In k (rectangular_layer N l) /\ In k' (rectangular_layer N l))
  \/ (In k (triangular_layer N l) /\ In k' (triangular_layer N l)) ->
  k <> k' ->
  2 <= Z.abs (k - k').
Proof.
  intros [[Hk Hk']|[Hk Hk']] Hne.
  - unfold rectangular_layer in *. apply filter_In in Hk, Hk'.
    destruct Hk as [_ Hk], Hk' as [_ Hk'].
    destruct (Z.eqb_spec ((l + k) mod 2) 1); [discriminate|].
    destruct (Z.eqb_spec ((l + k') mod 2) 1); [discriminate|]. dlia.
  - unfold triangular_layer in *. apply In_range3_2_iff in Hk, Hk'.
    destruct Hk as [_ Hk], Hk' as [_ Hk']. dlia.
Qed.

Section MeshOrder.

Variables (W R G : Type).
Variable zero : R.

Local Abbreviation op := (operation W R G).

(** X7.  In the rectangular mesh the first element acts on the first two
    wires, [w[0]] and [w[1]], with [theta[0]] and [phi[0]]. *)
Theorem X7_rectangular_starts_on_first_pair
    (theta phi varphi : list R) (w : list W) (bs : pyval) (r0 : R) (d : W) :
  2 <= len w ->
  len w * (len w - 1) / 2 <= len theta ->
  len w * (len w - 1) / 2 <= len phi ->
  bs <> PyVariable ->
  exists rest : list op,
    fst (Interferometer zero theta phi varphi (Many w) (PyStr "rectangular") bs [])
    = element_ops zero bs (nth 0 theta r0) (nth 0 phi r0) (nth 0 w d) (nth 1 w d) ++ rest.
Proof.
  intros HN Ht Hp Hbs.
  pose proof (len_rectangular_placements (len w) ltac:(lia)) as Hlen.
  rewrite (Interferometer_layout W R G zero theta phi varphi w (PyStr "rectangular") bs
             r0 d []) by (try apply isinstance_Variable_false;
                          (assumption || discriminate
                           || (change (mesh_placements (PyStr "rectangular") (len w))
                                 with (rectangular_placements (len w)); lia))).
  change (mesh_placements (PyStr "rectangular") (len w))
    with (rectangular_placements (len w)).
  unfold rectangular_placements, rectangular_layer.
  destruct (range_head (len w) ltac:(lia)) as [ls ->].
  destruct (range_head (len w - 1) ltac:(lia)) as [ks ->].
  cbn [flat_map filter map app fst]. change (negb ((0 + 0) mod 2 =? 1)) with true.
  cbn [map app]. rewrite mesh_ops_cons. rewrite <- app_assoc. eexists. reflexivity.
Qed.

(** X8.  In the triangular mesh on four or more wires the first four
    elements act on the position pairs [(N-2, N-1)], [(N-3, N-2)],
    [(N-4, N-3)] and [(N-2, N-1)] again: the queue starts with the elements
    of the placements [(0, N-2)], [(1, N-3)], [(2, N-4)], [(2, N-2)]. *)
Theorem X8_triangular_starts_at_the_bottom
    (theta phi varphi : list R) (w : list W) (bs : pyval) (r0 : R) (d : W) :
  4 <= len w ->
  len w * (len w - 1) / 2 <= len theta ->
  len w * (len w - 1) / 2 <= len phi ->
  bs <> PyVariable ->
  exists rest : list op,
    fst (Interferometer zero theta phi varphi (Many w) (PyStr "triangular") bs [])
    = mesh_ops zero bs theta phi w r0 d 0
               [(0, len w - 2); (1, len w - 3); (2, len w - 4); (2, len w - 2)]
      ++ rest.
Proof.
  intros HN Ht Hp Hbs.
  pose proof (len_triangular_placements (len w) ltac:(lia)) as Hlen.
  rewrite (Interferometer_layout W R G zero theta phi varphi w (PyStr "triangular") bs
             r0 d []) by (try apply isinstance_Variable_false;
                          (assumption || discriminate || lia
                           || (change (mesh_placements (PyStr "triangular") (len w))
                                 with (triangular_placements (len w)); lia))).
  change (mesh_placements (PyStr "triangular") (len w))
    with (triangular_placements (len w)).
  assert (Hps : exists tl, triangular_placements (len w)
                           = [(0, len w - 2); (1, len w - 3); (2, len w - 4); (2, len w - 2)]
                               ++ tl).
  { unfold triangular_placements, triangular_layer.
    replace (2 * len w - 3) with (2 * len w - 6 + 1 + 1 + 1) by lia.
    assert (Hr : exists tl, range (2 * len w - 6 + 1 + 1 + 1) = 0 :: 1 :: 2 :: tl).
    { replace (2 * len w - 6 + 1 + 1 + 1)
        with (Z.of_nat (S (S (S (Z.to_nat (2 * len w - 6)))))) by lia.
      rewrite range_of_nat. cbn [seq map]. eauto. }
    destruct Hr as [tl ->]. cbn [flat_map].
    rewrite (range3_one (Z.abs (0 + 1 - (len w - 1)))) by lia.
    rewrite (range3_one (Z.abs (1 + 1 - (len w - 1)))) by lia.
    rewrite (range3_two (Z.abs (2 + 1 - (len w - 1)))) by lia.
    replace (Z.abs (0 + 1 - (len w - 1))) with (len w - 2) by lia.
    replace (Z.abs (1 + 1 - (len w - 1))) with (len w - 3) by lia.
    replace (Z.abs (2 + 1 - (len w - 1))) with (len w - 4) by lia.
    replace (len w - 4 + 2) with (len w - 2) by lia.
    cbn [map app]. eauto. }
  destruct Hps as [tl ->]. cbn [fst].
  assert (Happ : forall n0 ps1 ps2,
             mesh_ops (G:=G) zero bs theta phi w r0 d n0 (ps1 ++ ps2)
             = mesh_ops zero bs theta phi w r0 d n0 ps1
               ++ mesh_ops zero bs theta phi w r0 d (n0 + len ps1) ps2).
  { intros n0 ps1. revert n0. induction ps1 as [|[l k] ps1 IH]; intros n0 ps2.
    - cbn [app]. change (len []) with 0. now rewrite Z.add_0_r.
    - cbn [app]. rewrite !mesh_ops_cons, IH, <- app_assoc.
      unfold len. cbn [List.length]. do 3 f_equal. lia. }
  rewrite Happ, <- app_assoc. eexists. reflexivity.
Qed.

End MeshOrder.

(** ** Further properties of the strongly entangling layers *)

Section EntanglingEdges.

Variables (W R G : Type).
Variable W_eq_dec : forall a b : W, {a = b} + {a <> b}.

Local Abbreviation op := (operation W R G).
Local Abbreviation Mq := (M W R G).

Lemma map_nth_range {B : Type} (f : W -> B) (wires : list W) (d : W) :
  map (fun i => f (nth (Z.to_nat i) wires d)) (range (len wires)) = map f wires.
Proof.
  unfold len. rewrite range_of_nat, map_map.
  rewrite (map_ext _ (fun i => f (nth i wires d)))
    by (intros i; now rewrite Nat2Z.id).
  induction wires as [|x wires IH]; [reflexivity|].
  cbn [List.length seq map nth]. f_equal.
  rewrite <- seq_shift, map_map. exact IH.
Qed.

Lemma enumerate_from_app {A : Type} (l1 l2 : list A) (i : Z) :
  enumerate_from i (l1 ++ l2) = enumerate_from i l1 ++ enumerate_from (i + len l1) l2.
Proof.
  revert i. induction l1 as [|x l1 IH]; intros i.
  - cbn [app enumerate_from]. change (len []) with 0. now rewrite Z.add_0_r.
  - cbn [app enumerate_from]. rewrite IH. unfold len. cbn [List.length].
    do 3 f_equal. lia.
Qed.

Lemma combine_app_eq {A B : Type} (l1 l2 : list A) (l1' l2' : list B) :
  List.length l1 = List.length l1' ->
  combine (l1 ++ l2) (l1' ++ l2') = combine l1 l1' ++ combine l2 l2'.
Proof.
  revert l1'. induction l1 as [|x l1 IH]; intros [|y l1'] Hlen;
    try discriminate; [reflexivity|].
  cbn [app combine]. f_equal. apply IH. now inversion Hlen.
Qed.

(** X9.  When the range [r] is a multiple of the number of wires, the first
    imprimitive gate of [StronglyEntanglingLayer] would be given the same
    wire twice, [(wires[0], wires[0])]: the layer queues its [n] [Rot] gates
    and then ends in the [ValueError] of the gate's constructor, with no
    imprimitive gate queued. *)
Theorem X9_range_multiple_of_wires_is_refused
    (weights : list (list R)) (c : Z) (imprimitive : G) (wires : list W)
    (r0 : R) (q : list op) :
  2 <= len wires -> block_shape (len wires) weights ->
  StronglyEntanglingLayer W_eq_dec weights (c * len wires) imprimitive wires q
  = (q ++ rot_ops weights wires r0, inl (LibraryValueError OperationInit))
  /\ count is_Gate2 (rot_ops (G:=G) weights wires r0) = 0.
Proof.
  intros Hn Hshape. split.
  - destruct wires as [|d ws] eqn:Ew; [unfold len in Hn; cbn in Hn; lia|].
    rewrite <- Ew in *. clear Ew.
    unfold StronglyEntanglingLayer. destruct (Z.ltb_spec (len wires) 2); [lia|].
    unfold bind at 1. rewrite (yields_rot_loop W R G weights wires r0 Hshape).
    destruct (range_head (len wires) ltac:(lia)) as [tl ->].
    cbn [for_]. unfold bind at 1.
    rewrite (getitem_bind W R G wires 0 d) by lia.
    rewrite (getitem_bind W R G wires ((0 + c * len wires) mod len wires) d)
      by (rewrite Z.mod_add, Z.mod_small by lia; lia).
    rewrite Z.mod_add, Z.mod_small by lia.
    unfold apply_imprimitive.
    destruct (W_eq_dec (nth (Z.to_nat 0) wires d) (nth (Z.to_nat 0) wires d))
      as [_|Hne]; [reflexivity|now contradiction Hne].
  - unfold rot_ops. generalize (enumerate wires) as l.
    induction l as [|[i x] l IH]; [reflexivity|exact IH].
Qed.

(** X10.  When [r] is not a multiple of the number of wires and the wires
    are pairwise different, every imprimitive gate of
    [StronglyEntanglingLayer] acts on two different wires of [wires]. *)
Theorem X10_entanglers_join_different_wires
    (weights : list (list R)) (r : Z) (imprimitive : G) (wires : list W)
    (r0 : R) (d : W) (q : list op) :
  2 <= len wires -> block_shape (len wires) weights ->
  NoDup wires -> r mod len wires <> 0 ->
  StronglyEntanglingLayer W_eq_dec weights r imprimitive wires q
  = (q ++ rot_ops weights wires r0 ++ entangler_ops r imprimitive wires d, inr tt)
  /\ Forall (fun o : op =>
               exists a b, o = Gate2 imprimitive (Many [a; b])
                           /\ a <> b /\ In a wires /\ In b wires)
            (entangler_ops r imprimitive wires d).
Proof.
  intros Hn Hshape Hnd Hr. split; [now apply StronglyEntanglingLayer_layout|].
  unfold entangler_ops. apply Forall_forall. intros o Ho.
  apply in_map_iff in Ho. destruct Ho as [i [<- Hi]]. apply In_range in Hi.
  pose proof (Z.mod_pos_bound (i + r) (len wires) ltac:(lia)) as Hmod.
  eexists _, _. split; [reflexivity|]. unfold len in *.
  split; [|split; apply nth_In; lia].
  apply (shifted_wire_differs W wires r i d Hnd Hr). unfold len. lia.
Qed.

(** X11.  The range only matters modulo the number of wires: adding any
    multiple of [len(wires)] to [r] gives the same run. *)
Theorem X11_range_is_periodic
    (weights : list (list R)) (r c : Z) (imprimitive : G) (wires : list W) (q : list op) :
  StronglyEntanglingLayer W_eq_dec weights (r + c * len wires) imprimitive wires q
  = StronglyEntanglingLayer W_eq_dec weights r imprimitive wires q.
Proof.
  unfold StronglyEntanglingLayer. destruct (Z.ltb_spec (len wires) 2); [reflexivity|].
  apply bind_cong_r. intros _ q1. apply for_ext. intros i s q2 _.
  rewrite Z.add_assoc, Z.mod_add by lia. reflexivity.
Qed.

(** X12.  When the weight array has three columns but fewer rows than there
    are wires, [StronglyEntanglingLayer] queues the rotations of the wires
    that have a row and then raises [IndexError]; no imprimitive gate is
    queued. *)
Theorem X12_too_few_weight_rows
    (weights : list (list R)) (r : Z) (imprimitive : G) (wires : list W)
    (r0 : R) (q : list op) :
  2 <= len wires -> len weights < len wires ->
  Forall (fun row => len row = 3) weights ->
  StronglyEntanglingLayer W_eq_dec weights r imprimitive wires q
  = (q ++ rot_ops weights (firstn (List.length weights) wires) r0, inl IndexError)
  /\ count is_Gate2 (rot_ops (G:=G) weights (firstn (List.length weights) wires) r0) = 0.
Proof.
  intros Hn Hlt Hrows. split.
  - unfold StronglyEntanglingLayer. destruct (Z.ltb_spec (len wires) 2); [lia|].
    assert (Hm : (List.length weights < List.length wires)%nat) by (unfold len in Hlt; lia).
    destruct (nth_error wires (List.length weights)) as [x|] eqn:Ex;
      [|apply nth_error_None in Ex; lia].
    pose proof (split_at wires (List.length weights) x Hm) as Hsplit.
    rewrite (nth_error_nth _ _ x Ex) in Hsplit.
    unfold bind. unfold enumerate. rewrite Hsplit at 1.
    rewrite enumerate_from_app. cbn [enumerate_from].
    assert (Hfl : len (firstn (List.length weights) wires) = len weights).
    { unfold len. rewrite length_firstn. lia. }
    rewrite (for_raises W R G _ _ _ _ tt tt q
               (q ++ rot_ops weights (firstn (List.length weights) wires) r0)
               (q ++ rot_ops weights (firstn (List.length weights) wires) r0) IndexError).
    + reflexivity.
    + apply (yields_rot_loop W R G weights (firstn (List.length weights) wires) r0).
      split; [now rewrite Hfl|assumption].
    + unfold bind, getitem2. rewrite Hfl, py_index_out by lia. reflexivity.
  - unfold rot_ops. generalize (enumerate (firstn (List.length weights) wires)) as l.
    induction l as [|[i x] l IH]; [reflexivity|exact IH].
Qed.

(** X13.  Layers compose: running [StronglyEntanglingLayers] on the
    concatenation of two weight tensors, with the concatenation of their
    ranges (the first as long as the first tensor) or with [ranges=None],
    is running it on the first and then, unless that raised, on the second. *)
Theorem X13_layers_compose
    (w1 w2 : list (list (list R))) (r1 r2 : list Z) (imprimitive : G) (wires : list W)
    (q : list op) :
  List.length w1 = List.length r1 ->
  StronglyEntanglingLayers W_eq_dec (w1 ++ w2) (Some (r1 ++ r2)) imprimitive wires q
  = bind (StronglyEntanglingLayers W_eq_dec w1 (Some r1) imprimitive wires)
         (fun _ => StronglyEntanglingLayers W_eq_dec w2 (Some r2) imprimitive wires) q
  /\ StronglyEntanglingLayers W_eq_dec (w1 ++ w2) None imprimitive wires q
     = bind (StronglyEntanglingLayers W_eq_dec w1 None imprimitive wires)
            (fun _ => StronglyEntanglingLayers W_eq_dec w2 None imprimitive wires) q.
Proof.
  intros Hlen.
  assert (Hunit : forall (m : Mq unit) (k : unit -> Mq unit) q0,
             bind m k q0 = bind m (fun _ => k tt) q0).
  { intros m k q0. unfold bind. destruct (m q0) as [q1 [e|[]]]; reflexivity. }
  unfold StronglyEntanglingLayers. split.
  - rewrite combine_app_eq by assumption. rewrite for_app. apply Hunit.
  - rewrite length_app, repeat_app, combine_app_eq by (now rewrite repeat_length).
    rewrite for_app. apply Hunit.
Qed.

(** X14.  On fewer than two wires [StronglyEntanglingLayers] raises the
    [ValueError] of its first layer with nothing queued; when there is no
    layer to apply (no weights, or an empty [ranges]) the number of wires is
    never looked at and the call returns normally. *)
Theorem X14_layers_on_too_few_wires
    (weights : list (list (list R))) (ranges : option (list Z)) (imprimitive : G)
    (wires : list W) (q : list op) :
  len wires < 2 ->
  StronglyEntanglingLayers W_eq_dec weights ranges imprimitive wires q
  = match weights, ranges with
    | [], _ => (q, inr tt)
    | _ :: _, Some [] => (q, inr tt)
    | _ :: _, _ => (q, inl (ValueError msg_sel_wires))
    end.
Proof.
  intros Hn. unfold StronglyEntanglingLayers.
  destruct weights as [|b ws]; [reflexivity|].
  destruct ranges as [[|r rs]|]; [reflexivity| |];
    cbn [List.length repeat combine for_]; unfold bind, StronglyEntanglingLayer;
    destruct (Z.ltb_spec (len wires) 2); (reflexivity || lia).
Qed.

End EntanglingEdges.

(** ** Further properties of the random layers *)

Section RandomEdges.

Variables (W R G : Type).

Local Abbreviation op := (operation W R G).
Local Abbreviation Mq := (M W R G).

Lemma gate1_params_app (a b : list op) :
  gate1_params (a ++ b) = gate1_params a ++ gate1_params b.
Proof.
  induction a as [|o a IH]; [reflexivity|]. destruct o; cbn [app gate1_params]; now rewrite IH.
Qed.

Lemma count_Gate1_params (ops : list op) :
  count is_Gate1 ops = len (gate1_params ops).
Proof.
  unfold count, len. induction ops as [|o ops IH]; [reflexivity|].
  destruct o; cbn [filter is_Gate1 gate1_params List.length]; lia.
Qed.

Lemma skipn_nth_error {A : Type} (l : list A) (n : nat) (x : A) :
  nth_error l n = Some x -> skipn n l = x :: skipn (S n) l.
Proof.
  revert n. induction l as [|y l IH]; intros [|n] H; try discriminate.
  - now inversion H.
  - cbn [skipn]. now apply IH.
Qed.

Lemma choice_In {A : Type} (a : list A) (pos : nat) (q q' : list op) (x : A) :
  choice (W:=W) (R:=R) (G:=G) a pos q = (q', inr x) -> q' = q /\ In x a.
Proof.
  unfold choice. destruct (nth_error a _) eqn:E; [|discriminate].
  intros H. inversion H; subst. split; [reflexivity|]. eapply nth_error_In; eassumption.
Qed.

(** What a pass through the rotation branch has done when it returns. *)
Lemma body_rotation_inv (weights : list R) (p : Q) (imprimitive : G)
    (rotations : list G) (wires : list W) (dr : draw W) (i : Z) (q q' : list op) (i' : Z) :
  exceeds (d_u dr) p = true -> 0 <= i ->
  RandomLayer_body weights p imprimitive rotations wires dr i q = (q', inr i') ->
  exists g x w,
    nth_error weights (Z.to_nat i) = Some x /\ In g rotations /\ In w wires
    /\ q' = q ++ [Gate1 g x (One w)] /\ i' = i + 1.
Proof.
  intros Hu Hi. unfold RandomLayer_body. rewrite Hu. unfold bind.
  destruct (choice rotations (d_gate dr) q) as [q1 [e|g]] eqn:Eg; [discriminate|].
  destruct (choice wires (d_wire dr) q1) as [q2 [e|w]] eqn:Ew; [discriminate|].
  apply choice_In in Eg, Ew. destruct Eg as [-> Hg], Ew as [-> Hw].
  unfold getitem. rewrite py_index_nonneg by assumption.
  destruct (nth_error weights (Z.to_nat i)) as [x|] eqn:Ex; [|discriminate].
  intros H. inversion H; subst. exists g, x, w. auto.
Qed.

(** The queue of a loop that returns: the rotations carry the weights from
    [weights[i]] on, in order, and every operation is well placed. *)
Lemma loop_returns (weights : list R) (p : Q) (imprimitive : G)
    (rotations : list G) (wires : list W) (rng : nat -> draw W) :
  forall (fuel t : nat) (i : Z) (q q' : list op) (i' : Z),
    0 <= i <= len weights ->
    RandomLayer_loop fuel weights p imprimitive rotations wires rng t i q
    = Some (q', inr i') ->
    exists ops, q' = q ++ ops /\ gate1_params ops = skipn (Z.to_nat i) weights.
Proof.
  induction fuel as [|fuel IH]; intros t i q q' i' Hi; cbn [RandomLayer_loop];
    destruct (Z.ltb_spec i (len weights)); try discriminate.
  - intros H'. inversion H'; subst. exists []. rewrite app_nil_r. split; [reflexivity|].
    rewrite skipn_all2 by (unfold len in *; lia). reflexivity.
  - destruct (RandomLayer_body weights p imprimitive rotations wires (rng t) i q)
      as [q1 [e|i1]] eqn:Hb; [discriminate|].
    intros Hloop. destruct (exceeds (d_u (rng t)) p) eqn:Hu.
    + apply body_rotation_inv in Hb; [|assumption|lia].
      destruct Hb as [g [x [w [Hx [_ [_ [-> ->]]]]]]].
      apply IH in Hloop; [|lia]. destruct Hloop as [ops [-> Hops]].
      exists (Gate1 g x (One w) :: ops). rewrite <- app_assoc. split; [reflexivity|].
      cbn [gate1_params]. rewrite Hops.
      replace (Z.to_nat (i + 1)) with (S (Z.to_nat i)) by lia.
      symmetry. now apply skipn_nth_error.
    + rewrite body_imprimitive in Hb by assumption. inversion Hb; subst.
      apply IH in Hloop; [|lia]. destruct Hloop as [ops [-> Hops]].
      eexists (_ :: ops). rewrite <- app_assoc. split; [reflexivity|exact Hops].
  - intros H'. inversion H'; subst. exists []. rewrite app_nil_r. split; [reflexivity|].
    rewrite skipn_all2 by (unfold len in *; lia). reflexivity.
Qed.

Lemma RandomLayer_returns (fuel : nat) (weights : list R) (p : Q) (imprimitive : G)
    (rotations : list G) (wires : list W) (rng : nat -> draw W) (q q' : list op) :
  RandomLayer fuel weights p imprimitive rotations wires rng q = Some (q', inr tt) ->
  exists ops, q' = q ++ ops /\ gate1_params ops = weights.
Proof.
  unfold RandomLayer. destruct (len wires <? 2); [discriminate|].
  destruct (RandomLayer_loop fuel weights p imprimitive rotations wires rng 0 0 q)
    as [[q1 [e|i1]]|] eqn:E; try discriminate.
  intros H. inversion H; subst. apply loop_returns in E; [exact E|].
  pose proof (len_nonneg weights). lia.
Qed.

(** X15.  Whenever [RandomLayer] returns, whatever the ratio and the draws,
    the single-wire rotations it has queued carry exactly the entries of
    [weights], each once and in order; the other gates queued are
    imprimitive gates. *)
Theorem X15_each_weight_used_once
    (fuel : nat) (weights : list R) (p : Q) (imprimitive : G) (rotations : list G)
    (wires : list W) (rng : nat -> draw W) (q q' : list op) :
  RandomLayer fuel weights p imprimitive rotations wires rng q = Some (q', inr tt) ->
  exists ops,
    q' = q ++ ops
    /\ gate1_params ops = weights
    /\ count is_Gate1 ops = len weights.
Proof.
  intros H. apply RandomLayer_returns in H. destruct H as [ops [-> Hops]].
  exists ops. split; [reflexivity|split; [exact Hops|]].
  now rewrite count_Gate1_params, Hops.
Qed.

Lemma firstn_2_permutation (wires perm : list W) :
  2 <= len wires -> NoDup wires -> Permutation perm wires ->
  exists a b, firstn 2 perm = [a; b] /\ a <> b /\ In a wires /\ In b wires.
Proof.
  intros Hn Hnd Hperm.
  pose proof (Permutation_length Hperm) as Hlen. unfold len in Hn.
  destruct perm as [|a [|b rest]]; cbn [List.length] in Hlen; try lia.
  exists a, b. split; [reflexivity|].
  assert (Hnd' : NoDup (a :: b :: rest))
    by (eapply Permutation_NoDup; [apply Permutation_sym; exact Hperm|exact Hnd]).
  inversion Hnd' as [|? ? Hnotin _]; subst.
  split; [intros ->; apply Hnotin; now left|].
  split; eapply Permutation_in; try exact Hperm; cbn; auto.
Qed.

(** A pass that raises has queued nothing. *)
Lemma body_raises_queue (weights : list R) (p : Q) (imprimitive : G)
    (rotations : list G) (wires : list W) (dr : draw W) (i : Z) (q q' : list op) e :
  RandomLayer_body weights p imprimitive rotations wires dr i q = (q', inl e) -> q' = q.
Proof.
  unfold RandomLayer_body, bind, choice, getitem, emit, ret, raise.
  destruct (exceeds (d_u dr) p); [|discriminate].
  destruct (nth_error rotations _); [|intros H; now inversion H].
  destruct (nth_error wires _); [|intros H; now inversion H].
  destruct (py_index weights i); intros H; now inversion H.
Qed.

Lemma loop_placed (weights : list R) (p : Q) (imprimitive : G)
    (rotations : list G) (wires : list W) (rng : nat -> draw W) :
  2 <= len wires -> NoDup wires -> (forall t, draw_ok wires (rng t)) ->
  forall (fuel t : nat) (i : Z) (q q' : list op) r,
    0 <= i ->
    RandomLayer_loop fuel weights p imprimitive rotations wires rng t i q = Some (q', r) ->
    exists ops, q' = q ++ ops /\ Forall (placed weights imprimitive rotations wires) ops.
Proof.
  intros Hn Hnd Hok.
  assert (Hw : wires <> []) by (intros ->; unfold len in Hn; cbn in Hn; lia).
  induction fuel as [|fuel IH]; intros t i q q' r Hi; cbn [RandomLayer_loop];
    destruct (Z.ltb_spec i (len weights)); try discriminate;
    try (intros H'; inversion H'; subst; exists []; rewrite app_nil_r; now split).
  destruct (RandomLayer_body weights p imprimitive rotations wires (rng t) i q)
    as [q1 [e|i1]] eqn:Hb.
  - intros H'. inversion H'; subst. apply body_raises_queue in Hb. subst q'.
    exists []. rewrite app_nil_r. now split.
  - intros Hloop. destruct (exceeds (d_u (rng t)) p) eqn:Hu.
    + apply body_rotation_inv in Hb; [|assumption|lia].
      destruct Hb as [g [x [w [Hx [Hg [Hwi [-> ->]]]]]]].
      apply IH in Hloop; [|lia]. destruct Hloop as [ops [-> Hops]].
      exists (Gate1 g x (One w) :: ops). rewrite <- app_assoc. split; [reflexivity|].
      constructor; [|exact Hops]. left. exists g, x, w.
      repeat split; try assumption. eapply nth_error_In; eassumption.
    + rewrite body_imprimitive in Hb by assumption. inversion Hb; subst.
      apply IH in Hloop; [|lia]. destruct Hloop as [ops [-> Hops]].
      destruct (Hok t) as [_ [_ Hperm]].
      destruct (firstn_2_permutation wires (d_perm (rng t) wires) Hn Hnd Hperm)
        as [a [b [E [Hab [Ha Hb']]]]].
      exists (Gate2 imprimitive (Many (firstn 2 (d_perm (rng t) wires))) :: ops).
      rewrite <- app_assoc. split; [reflexivity|].
      constructor; [|exact Hops]. right. exists a, b. rewrite E. auto.
Qed.

(** X16.  On two or more pairwise different wires, with draws as
    [np.random] produces them, every operation [RandomLayer] queues is either
    a palette gate with one of the weights on one of the wires, or the
    imprimitive gate on two different wires of [wires]; this holds for the
    queue of every finished run, whether it returned or raised. *)
Theorem X16_gates_are_well_placed
    (fuel : nat) (weights : list R) (p : Q) (imprimitive : G) (rotations : list G)
    (wires : list W) (rng : nat -> draw W) (q q' : list op) (r : exn + unit) :
  2 <= len wires -> NoDup wires -> (forall t, draw_ok wires (rng t)) ->
  RandomLayer fuel weights p imprimitive rotations wires rng q = Some (q', r) ->
  exists ops, q' = q ++ ops /\ Forall (placed weights imprimitive rotations wires) ops.
Proof.
  intros Hn Hnd Hok. unfold RandomLayer. destruct (Z.ltb_spec (len wires) 2); [lia|].
  destruct (RandomLayer_loop fuel weights p imprimitive rotations wires rng 0 0 q)
    as [[q1 [e|i1]]|] eqn:E; try discriminate;
    intros H'; inversion H'; subst;
    apply (loop_placed weights p imprimitive rotations wires rng Hn Hnd Hok) in E;
    (exact E || lia).
Qed.

Lemma not_exceeds (u p : Q) : (u < 1)%Q -> (1 <= p)%Q -> exceeds u p = false.
Proof.
  intros Hu Hp. unfold exceeds.
  assert (H : Qle_bool u p = true).
  { apply Qle_bool_iff. apply Qlt_le_weak. eapply Qlt_le_trans; eassumption. }
  now rewrite H.
Qed.

(** X17.  With [ratio_imprim >= 1], at least one weight and two or more
    wires, [RandomLayer] never finishes: every value of
    [np.random.random()] is below 1, so every pass takes the imprimitive
    branch and the counter stays at 0. *)
Theorem X17_ratio_one_never_returns
    (fuel : nat) (weights : list R) (p : Q) (imprimitive : G) (rotations : list G)
    (wires : list W) (rng : nat -> draw W) (q : list op) :
  2 <= len wires -> weights <> [] -> (1 <= p)%Q ->
  (forall t, (d_u (rng t) < 1)%Q) ->
  RandomLayer fuel weights p imprimitive rotations wires rng q = None.
Proof.
  intros Hn Hw Hp Hu. unfold RandomLayer. destruct (Z.ltb_spec (len wires) 2); [lia|].
  rewrite (loop_runs_forever W R G weights p imprimitive rotations wires rng).
  - reflexivity.
  - intros t. apply not_exceeds; [apply Hu|exact Hp].
  - destruct weights; [congruence|]. unfold len. cbn [List.length]. lia.
Qed.

Lemma RandomLayers_from_returns (fuel : nat) (p : Q) (imprimitive : G)
    (rotations : list G) (wires : list W) (rngs : nat -> nat -> draw W) :
  forall (weights : list (list R)) (l : nat) (q q' : list op),
    RandomLayers_from fuel weights p imprimitive rotations wires rngs l q
    = Some (q', inr tt) ->
    exists ops, q' = q ++ ops /\ gate1_params ops = List.concat weights.
Proof.
  induction weights as [|row weights IH]; intros l q q'; cbn [RandomLayers_from List.concat].
  - intros H. inversion H; subst. exists []. now rewrite app_nil_r.
  - destruct (RandomLayer fuel row p imprimitive rotations wires (rngs l) q)
      as [[q1 [e|[]]]|] eqn:E; try discriminate.
    intros H. apply RandomLayer_returns in E. destruct E as [ops1 [-> H1]].
    apply IH in H. destruct H as [ops2 [-> H2]].
    exists (ops1 ++ ops2). rewrite <- app_assoc, gate1_params_app, H1, H2. now split.
Qed.

(** X18.  Whenever [RandomLayers] returns, the single-wire rotations it has
    queued carry the entries of the weight matrix row by row, each once and
    in order. *)
Theorem X18_layers_use_each_weight_once
    (fuel : nat) (weights : list (list R)) (p : Q) (imprimitive : G) (rotations : list G)
    (wires : list W) (rngs : nat -> nat -> draw W) (q q' : list op) :
  RandomLayers fuel weights p imprimitive rotations wires rngs q = Some (q', inr tt) ->
  exists ops,
    q' = q ++ ops
    /\ gate1_params ops = List.concat weights
    /\ count is_Gate1 ops = len (List.concat weights).
Proof.
  intros H. apply RandomLayers_from_returns in H. destruct H as [ops [-> Hops]].
  exists ops. split; [reflexivity|split; [exact Hops|]].
  now rewrite count_Gate1_params, Hops.
Qed.

(** X19.  On fewer than two wires [RandomLayers] raises the [ValueError] of
    its first layer with nothing queued, whatever the draws; with no row of
    weights it returns normally without looking at the wires. *)
Theorem X19_random_layers_on_too_few_wires
    (fuel : nat) (weights : list (list R)) (p : Q) (imprimitive : G) (rotations : list G)
    (wires : list W) (rngs : nat -> nat -> draw W) (q : list op) :
  len wires < 2 ->
  RandomLayers fuel weights p imprimitive rotations wires rngs q
  = match weights with
    | [] => Some (q, inr tt)
    | _ :: _ => Some (q, inl (ValueError msg_rl_wires))
    end.
Proof.
  intros Hn. unfold RandomLayers. destruct weights as [|row weights]; [reflexivity|].
  cbn [RandomLayers_from]. unfold RandomLayer.
  destruct (Z.ltb_spec (len wires) 2); [reflexivity|lia].
Qed.

End RandomEdges.

(** ** The continuous-variable layers *)

Section CVFacts.

Variables (W R G : Type).
Variable zero : R.

Local Abbreviation op := (operation W R G).
Local Abbreviation cvop := (cv_operation W R G).
Local Abbreviation Mq := (M W R G).
Local Abbreviation CMq := (CM W R G).

Lemma appends_ret {A : Type} (a : A) : appends (ret a : Mq A).
Proof. intros q. unfold ret. cbn. now rewrite app_nil_r. Qed.

Lemma appends_raise {A : Type} (e : exn) : appends (raise e : Mq A).
Proof. intros q. unfold raise. cbn. now rewrite app_nil_r. Qed.

Lemma appends_emit (o : op) : appends (emit o).
Proof. intros q. reflexivity. Qed.

Lemma appends_getitem {A : Type} (l : list A) (i : Z) : appends (getitem l i : Mq A).
Proof.
  unfold getitem. destruct (py_index l i); [apply appends_ret|apply appends_raise].
Qed.

Lemma appends_bind {A B : Type} (m : Mq A) (k : A -> Mq B) :
  appends m -> (forall a, appends (k a)) -> appends (bind m k).
Proof.
  intros Hm Hk q. unfold bind. rewrite (Hm q).
  destruct (m []) as [ops [e|a]]; cbn [fst snd]; [reflexivity|].
  rewrite (Hk a (q ++ ops)), (Hk a ops). cbn [fst snd]. now rewrite app_assoc.
Qed.

Lemma appends_for {X S : Type} (xs : list X) (body : X -> S -> Mq S) (s : S) :
  (forall x s, appends (body x s)) -> appends (for_ xs body s).
Proof.
  intros Hb. revert s. induction xs as [|x xs IH]; intros s; cbn [for_].
  - apply appends_ret.
  - apply appends_bind; [apply Hb|exact IH].
Qed.

Lemma appends_two_mode_element bs (theta phi : list R) (n : Z) (w1 w2 : W) :
  appends (two_mode_element (G:=G) zero bs theta phi n w1 w2).
Proof.
  unfold two_mode_element. destruct (py_eq_str bs "clements");
    repeat (apply appends_bind; [try apply appends_getitem; try apply appends_emit|intros ?]);
    apply appends_emit.
Qed.

(** Whatever its arguments, [Interferometer] leaves the operations already
    queued in place and appends its own. *)
Lemma Interferometer_appends (theta phi varphi : list R) (wires : wires_t W)
    (mesh bs : pyval) :
  appends (Interferometer (G:=G) zero theta phi varphi wires mesh bs).
Proof.
  unfold Interferometer.
  destruct (isinstance_Variable bs); [apply appends_raise|].
  destruct (isinstance_Variable mesh); [apply appends_raise|].
  destruct (len _ =? 1).
  - repeat (apply appends_bind; [apply appends_getitem|intros ?]). apply appends_emit.
  - apply appends_bind.
    + destruct (py_eq_str mesh "rectangular"); [|destruct (py_eq_str mesh "triangular")].
      * apply appends_for. intros l n. apply appends_for. intros [k [w1 w2]] n'.
        destruct (negb _); [|apply appends_ret].
        apply appends_bind; [apply appends_two_mode_element|intros _; apply appends_ret].
      * apply appends_for. intros l n. apply appends_for. intros k n'.
        repeat (apply appends_bind; [apply appends_getitem|intros ?]).
        apply appends_bind; [apply appends_two_mode_element|intros _; apply appends_ret].
      * apply appends_ret.
    + intros _. apply appends_for. intros [i p] [].
      apply appends_bind; [apply appends_getitem|intros ?; apply appends_emit].
Qed.

Lemma cv_yields_ret {A : Type} (a : A) : cv_yields (cv_ret a : CMq A) [] a.
Proof. intros q. unfold cv_ret. now rewrite app_nil_r. Qed.

Lemma cv_yields_bind {A B : Type} (m : CMq A) (f : A -> CMq B) ops1 a ops2 b :
  cv_yields m ops1 a -> cv_yields (f a) ops2 b -> cv_yields (cv_bind m f) (ops1 ++ ops2) b.
Proof. intros Hm Hf q. unfold cv_bind. rewrite Hm, Hf. now rewrite app_assoc. Qed.

Lemma cv_yields_for {X : Type} (xs : list X) (body : X -> CMq unit) (out : X -> cvop) :
  (forall x, In x xs -> cv_yields (body x) [out x] tt) ->
  cv_yields (cv_for xs body) (map out xs) tt.
Proof.
  induction xs as [|x xs IH]; intros Hb.
  - apply cv_yields_ret.
  - cbn [cv_for map]. apply (cv_yields_bind _ _ [out x] tt).
    + apply Hb. now left.
    + apply IH. intros; apply Hb. now right.
Qed.

Lemma cv_getitem_bind {A B : Type} (l : list A) (i : Z) (d : A) (f : A -> CMq B) q :
  0 <= i < len l -> cv_bind (cv_getitem l i) f q = f (nth (Z.to_nat i) l d) q.
Proof.
  intros Hi. unfold cv_bind, cv_getitem. now rewrite (py_index_nth l i d Hi).
Qed.

Lemma cv_getitem_raises {A B : Type} (l : list A) (i : Z) (f : A -> CMq B) q :
  len l <= i -> cv_bind (cv_getitem l i) f q = (q, inl IndexError).
Proof.
  intros Hi. unfold cv_bind, cv_getitem. now rewrite (py_index_out l i Hi).
Qed.

Lemma cv_bind_cong {A B : Type} (m1 m2 : CMq A) (k1 k2 : A -> CMq B) q :
  m1 q = m2 q -> (forall a q', k1 a q' = k2 a q') -> cv_bind m1 k1 q = cv_bind m2 k2 q.
Proof.
  intros Hm Hk. unfold cv_bind. rewrite Hm.
  destruct (m2 q) as [q1 [e|a]]; [reflexivity|apply Hk].
Qed.

Lemma cv_bind_raises {A B : Type} (m : CMq A) (k : A -> CMq B) q q' e :
  m q = (q', inl e) -> cv_bind m k q = (q', inl e).
Proof. intros Hm. unfold cv_bind. now rewrite Hm. Qed.

Lemma cv_for_app {X : Type} (xs ys : list X) (body : X -> CMq unit) q :
  cv_for (xs ++ ys) body q = cv_bind (cv_for xs body) (fun _ => cv_for ys body) q.
Proof.
  revert q. induction xs as [|x xs IH]; intros q; [reflexivity|].
  cbn [app cv_for]. unfold cv_bind in *.
  destruct (body x q) as [q' [e|[]]]; [reflexivity|apply IH].
Qed.

Lemma cv_for_ext {X : Type} (xs : list X) (b1 b2 : X -> CMq unit) q :
  (forall x q, In x xs -> b1 x q = b2 x q) -> cv_for xs b1 q = cv_for xs b2 q.
Proof.
  revert q. induction xs as [|x xs IH]; intros q Hb; [reflexivity|].
  cbn [cv_for]. unfold cv_bind. rewrite Hb by (now left).
  destruct (b2 x q) as [q' [e|[]]]; [reflexivity|]. apply IH. intros; apply Hb; now right.
Qed.

Lemma cv_for_map {X Y : Type} (f : X -> Y) (xs : list X) (body : Y -> CMq unit) q :
  cv_for (map f xs) body q = cv_for xs (fun x => body (f x)) q.
Proof.
  revert q. induction xs as [|x xs IH]; intros q; [reflexivity|].
  cbn [map cv_for]. unfold cv_bind.
  destruct (body (f x) q) as [q' [e|[]]]; [reflexivity|apply IH].
Qed.

(** The three loops over the modes, lines 277-278 and 282-286. *)
Lemma cv_yields_squeezing (r phi_r : list R) (wires : list W) (r0 : R) :
  len wires <= len r -> len wires <= len phi_r ->
  cv_yields (cv_for (enumerate wires)
                    (fun '(i, wire) =>
                       (ri <- cv_getitem r i ;;
                        pi <- cv_getitem phi_r i ;;
                        cv_emit (G:=G) (Squeezing ri pi (One wire)))%cv))
            (squeezing_ops r phi_r wires r0) tt.
Proof.
  intros Hr Hp. unfold squeezing_ops. apply cv_yields_for.
  intros [i wire] Hin q. apply In_enumerate_from in Hin. destruct Hin as [Hi _].
  rewrite (cv_getitem_bind r i r0), (cv_getitem_bind phi_r i r0) by lia. reflexivity.
Qed.

Lemma cv_yields_displacement (a phi_a : list R) (wires : list W) (r0 : R) :
  len wires <= len a -> len wires <= len phi_a ->
  cv_yields (cv_for (enumerate wires)
                    (fun '(i, wire) =>
                       (ai <- cv_getitem a i ;;
                        pi <- cv_getitem phi_a i ;;
                        cv_emit (G:=G) (Displacement ai pi (One wire)))%cv))
            (displacement_ops a phi_a wires r0) tt.
Proof.
  intros Ha Hp. unfold displacement_ops. apply cv_yields_for.
  intros [i wire] Hin q. apply In_enumerate_from in Hin. destruct Hin as [Hi _].
  rewrite (cv_getitem_bind a i r0), (cv_getitem_bind phi_a i r0) by lia. reflexivity.
Qed.

Lemma cv_yields_kerr (k : list R) (wires : list W) (r0 : R) :
  len wires <= len k ->
  cv_yields (cv_for (enumerate wires)
                    (fun '(i, wire) =>
                       (ki <- cv_getitem k i ;; cv_emit (G:=G) (Kerr ki (One wire)))%cv))
            (kerr_ops k wires r0) tt.
Proof.
  intros Hk. unfold kerr_ops. apply cv_yields_for.
  intros [i wire] Hin q. apply In_enumerate_from in Hin. destruct Hin as [Hi _].
  rewrite (cv_getitem_bind k i r0) by lia. reflexivity.
Qed.

(** An interferometer on two or more modes, called from the layer. *)
Lemma cv_yields_interferometer (theta phi varphi : list R) (wires : list W)
    (r0 : R) (d : W) :
  2 <= len wires ->
  len wires * (len wires - 1) / 2 <= len theta ->
  len wires * (len wires - 1) / 2 <= len phi ->
  len varphi <= len wires ->
  cv_yields (lift (Interferometer (G:=G) zero theta phi varphi (Many wires)
                                  default_mesh default_beamsplitter))
            (map Op (interferometer_ops zero theta phi varphi wires r0 d)) tt.
Proof.
  intros HN Ht Hp Hv q. unfold lift.
  pose proof (len_rectangular_placements (len wires) ltac:(lia)) as Hlen.
  rewrite (Interferometer_layout W R G zero theta phi varphi wires default_mesh
             default_beamsplitter r0 d [] eq_refl eq_refl HN)
    by (change (mesh_placements default_mesh (len wires))
          with (rectangular_placements (len wires)); lia).
  destruct (Z.leb_spec (len varphi) (len wires)); [reflexivity|lia].
Qed.

Lemma len_enumerate_from {A : Type} (l : list A) (i : Z) :
  len (enumerate_from i l) = len l.
Proof.
  revert i. unfold len. induction l as [|x l IH]; intros i; [reflexivity|].
  cbn [enumerate_from List.length]. rewrite !Nat2Z.inj_succ. f_equal. apply IH.
Qed.

(** X20.  On [M >= 2] modes, with interferometer angles of length at least
    [K = M(M-1)/2], output angles of at most [M] entries and per-mode arrays
    of at least [M] entries, [CVNeuralNetLayer] queues, in this order, the
    first interferometer, one [Squeezing] per mode, the second
    interferometer, one [Displacement] per mode and one [Kerr] per mode; each
    interferometer holds [K] beamsplitters. *)
Theorem X20_cv_layer_layout
    (theta_1 phi_1 varphi_1 r phi_r theta_2 phi_2 varphi_2 a phi_a k : list R)
    (wires : list W) (r0 : R) (d : W) (q : list cvop) :
  2 <= len wires ->
  len wires * (len wires - 1) / 2 <= len theta_1 ->
  len wires * (len wires - 1) / 2 <= len phi_1 ->
  len wires * (len wires - 1) / 2 <= len theta_2 ->
  len wires * (len wires - 1) / 2 <= len phi_2 ->
  len varphi_1 <= len wires -> len varphi_2 <= len wires ->
  len wires <= len r -> len wires <= len phi_r ->
  len wires <= len a -> len wires <= len phi_a -> len wires <= len k ->
  CVNeuralNetLayer zero theta_1 phi_1 varphi_1 r phi_r theta_2 phi_2 varphi_2 a phi_a k
                   wires q
  = (q ++ map Op (interferometer_ops zero theta_1 phi_1 varphi_1 wires r0 d)
       ++ squeezing_ops r phi_r wires r0
       ++ map Op (interferometer_ops zero theta_2 phi_2 varphi_2 wires r0 d)
       ++ displacement_ops a phi_a wires r0
       ++ kerr_ops k wires r0,
     inr tt)
  /\ count is_Beamsplitter (interferometer_ops (G:=G) zero theta_1 phi_1 varphi_1 wires r0 d)
     = len wires * (len wires - 1) / 2
  /\ count is_Beamsplitter (interferometer_ops (G:=G) zero theta_2 phi_2 varphi_2 wires r0 d)
     = len wires * (len wires - 1) / 2
  /\ len (squeezing_ops (G:=G) r phi_r wires r0) = len wires
  /\ len (displacement_ops (G:=G) a phi_a wires r0) = len wires
  /\ len (kerr_ops (G:=G) k wires r0) = len wires.
Proof.
  intros HN Ht1 Hp1 Ht2 Hp2 Hv1 Hv2 Hr Hpr Ha Hpa Hk.
  assert (Hcount : forall theta phi varphi,
             count is_Beamsplitter (interferometer_ops (G:=G) zero theta phi varphi wires r0 d)
             = len wires * (len wires - 1) / 2).
  { intros. unfold interferometer_ops.
    rewrite count_app, count_mesh_ops, count_output_ops, len_rectangular_placements; lia. }
  pose proof (len_enumerate_from wires 0) as Henum. fold (enumerate wires) in Henum.
  split; [|repeat split; try apply Hcount;
            unfold squeezing_ops, displacement_ops, kerr_ops, len at 1;
            rewrite length_map; exact Henum].
  unfold CVNeuralNetLayer.
  repeat (eapply cv_yields_bind;
          [first [ apply (cv_yields_interferometer _ _ _ wires r0 d); assumption
                 | apply (cv_yields_squeezing _ _ wires r0); assumption
                 | apply (cv_yields_displacement _ _ wires r0); assumption ]|]).
  apply (cv_yields_kerr _ wires r0). assumption.
Qed.

(** X21.  On a single mode [CVNeuralNetLayer] queues five operations on
    that mode: the rotation [varphi_1[0]], the squeezing, the rotation
    [varphi_2[0]], the displacement and the Kerr gate; the interferometer
    angles [theta] and [phi] are not read. *)
Theorem X21_cv_layer_single_mode
    (theta_1 phi_1 varphi_1 r phi_r theta_2 phi_2 varphi_2 a phi_a k : list R)
    (x : W) (r0 : R) (q : list cvop) :
  1 <= len varphi_1 -> 1 <= len varphi_2 ->
  1 <= len r -> 1 <= len phi_r -> 1 <= len a -> 1 <= len phi_a -> 1 <= len k ->
  CVNeuralNetLayer zero theta_1 phi_1 varphi_1 r phi_r theta_2 phi_2 varphi_2 a phi_a k
                   [x] q
  = (q ++ [Op (Rotation (nth 0 varphi_1 r0) (One x));
           Squeezing (nth 0 r r0) (nth 0 phi_r r0) (One x);
           Op (Rotation (nth 0 varphi_2 r0) (One x));
           Displacement (nth 0 a r0) (nth 0 phi_a r0) (One x);
           Kerr (nth 0 k r0) (One x)],
     inr tt).
Proof.
  intros Hv1 Hv2 Hr Hpr Ha Hpa Hk.
  destruct varphi_1 as [|v1 ?]; [unfold len in Hv1; cbn in Hv1; lia|].
  destruct varphi_2 as [|v2 ?]; [unfold len in Hv2; cbn in Hv2; lia|].
  destruct r as [|r1 ?]; [unfold len in Hr; cbn in Hr; lia|].
  destruct phi_r as [|pr1 ?]; [unfold len in Hpr; cbn in Hpr; lia|].
  destruct a as [|a1 ?]; [unfold len in Ha; cbn in Ha; lia|].
  destruct phi_a as [|pa1 ?]; [unfold len in Hpa; cbn in Hpa; lia|].
  destruct k as [|k1 ?]; [unfold len in Hk; cbn in Hk; lia|].
  cbn. rewrite <- !app_assoc. reflexivity.
Qed.

Lemma layers_body_reads
    (theta_1 phi_1 varphi_1 r phi_r theta_2 phi_2 varphi_2 a phi_a k : list (list R))
    (wires : list W) (l : Z) (q : list cvop) :
  0 <= l < len theta_1 ->
  l < fewest_layers phi_1 varphi_1 r phi_r theta_2 phi_2 varphi_2 a phi_a k ->
  (t1 <- cv_getitem theta_1 l ;;
   p1 <- cv_getitem phi_1 l ;;
   v1 <- cv_getitem varphi_1 l ;;
   rl <- cv_getitem r l ;;
   pr <- cv_getitem phi_r l ;;
   t2 <- cv_getitem theta_2 l ;;
   p2 <- cv_getitem phi_2 l ;;
   v2 <- cv_getitem varphi_2 l ;;
   al <- cv_getitem a l ;;
   pa <- cv_getitem phi_a l ;;
   kl <- cv_getitem k l ;;
   CVNeuralNetLayer zero t1 p1 v1 rl pr t2 p2 v2 al pa kl wires)%cv q
  = CVNeuralNetLayer_at zero theta_1 phi_1 varphi_1 r phi_r theta_2 phi_2 varphi_2
                        a phi_a k wires l q.
Proof.
  intros Hl Hm. unfold fewest_layers in Hm.
  rewrite (cv_getitem_bind theta_1 l []), (cv_getitem_bind phi_1 l []),
    (cv_getitem_bind varphi_1 l []), (cv_getitem_bind r l []),
    (cv_getitem_bind phi_r l []), (cv_getitem_bind theta_2 l []),
    (cv_getitem_bind phi_2 l []), (cv_getitem_bind varphi_2 l []),
    (cv_getitem_bind a l []), (cv_getitem_bind phi_a l []),
    (cv_getitem_bind k l []) by lia.
  reflexivity.
Qed.

Lemma layers_body_raises
    (theta_1 phi_1 varphi_1 r phi_r theta_2 phi_2 varphi_2 a phi_a k : list (list R))
    (wires : list W) (l : Z) (q : list cvop) :
  0 <= l ->
  fewest_layers phi_1 varphi_1 r phi_r theta_2 phi_2 varphi_2 a phi_a k <= l ->
  (t1 <- cv_getitem theta_1 l ;;
   p1 <- cv_getitem phi_1 l ;;
   v1 <- cv_getitem varphi_1 l ;;
   rl <- cv_getitem r l ;;
   pr <- cv_getitem phi_r l ;;
   t2 <- cv_getitem theta_2 l ;;
   p2 <- cv_getitem phi_2 l ;;
   v2 <- cv_getitem varphi_2 l ;;
   al <- cv_getitem a l ;;
   pa <- cv_getitem phi_a l ;;
   kl <- cv_getitem k l ;;
   CVNeuralNetLayer zero t1 p1 v1 rl pr t2 p2 v2 al pa kl wires)%cv q
  = (q, inl IndexError).
Proof.
  intros Hl Hm. unfold fewest_layers in Hm.
  destruct (Z.le_gt_cases (len theta_1) l);
    [now rewrite (cv_getitem_raises theta_1 l)|rewrite (cv_getitem_bind theta_1 l []) by lia].
  destruct (Z.le_gt_cases (len phi_1) l);
    [now rewrite (cv_getitem_raises phi_1 l)|rewrite (cv_getitem_bind phi_1 l []) by lia].
  destruct (Z.le_gt_cases (len varphi_1) l);
    [now rewrite (cv_getitem_raises varphi_1 l)|rewrite (cv_getitem_bind varphi_1 l []) by lia].
  destruct (Z.le_gt_cases (len r) l);
    [now rewrite (cv_getitem_raises r l)|rewrite (cv_getitem_bind r l []) by lia].
  destruct (Z.le_gt_cases (len phi_r) l);
    [now rewrite (cv_getitem_raises phi_r l)|rewrite (cv_getitem_bind phi_r l []) by lia].
  destruct (Z.le_gt_cases (len theta_2) l);
    [now rewrite (cv_getitem_raises theta_2 l)|rewrite (cv_getitem_bind theta_2 l []) by lia].
  destruct (Z.le_gt_cases (len phi_2) l);
    [now rewrite (cv_getitem_raises phi_2 l)|rewrite (cv_getitem_bind phi_2 l []) by lia].
  destruct (Z.le_gt_cases (len varphi_2) l);
    [now rewrite (cv_getitem_raises varphi_2 l)|rewrite (cv_getitem_bind varphi_2 l []) by lia].
  destruct (Z.le_gt_cases (len a) l);
    [now rewrite (cv_getitem_raises a l)|rewrite (cv_getitem_bind a l []) by lia].
  destruct (Z.le_gt_cases (len phi_a) l);
    [now rewrite (cv_getitem_raises phi_a l)|rewrite (cv_getitem_bind phi_a l []) by lia].
  destruct (Z.le_gt_cases (len k) l);
    [now rewrite (cv_getitem_raises k l)|lia].
Qed.

(** X22.  [CVNeuralNetLayers] applies [len(theta_1)] layers.  When each of
    the other ten arrays has at least that many rows, layer [l] is
    [CVNeuralNetLayer] on the [l]-th rows, for [l = 0, 1, ...] in order, and
    rows beyond [len(theta_1)] are never read. *)
Theorem X22_cv_layers_follow_theta_1
    (theta_1 phi_1 varphi_1 r phi_r theta_2 phi_2 varphi_2 a phi_a k : list (list R))
    (wires : list W) (q : list cvop) :
  len theta_1 <= fewest_layers phi_1 varphi_1 r phi_r theta_2 phi_2 varphi_2 a phi_a k ->
  CVNeuralNetLayers zero theta_1 phi_1 varphi_1 r phi_r theta_2 phi_2 varphi_2 a phi_a k
                    wires q
  = cv_for (range (len theta_1))
           (CVNeuralNetLayer_at zero theta_1 phi_1 varphi_1 r phi_r theta_2 phi_2 varphi_2
                                a phi_a k wires) q.
Proof.
  intros Hm. unfold CVNeuralNetLayers. apply cv_for_ext.
  intros l q' Hl. apply In_range in Hl. apply layers_body_reads; lia.
Qed.

(** X23.  When one of the other ten arrays has fewer rows than [theta_1],
    [CVNeuralNetLayers] applies the layers that all arrays have rows for and
    then raises [IndexError] while reading the rows of the next layer, before
    that layer queues anything: the arrays are not cut to the shortest. *)
Theorem X23_cv_layers_short_array
    (theta_1 phi_1 varphi_1 r phi_r theta_2 phi_2 varphi_2 a phi_a k : list (list R))
    (wires : list W) (q : list cvop) :
  fewest_layers phi_1 varphi_1 r phi_r theta_2 phi_2 varphi_2 a phi_a k < len theta_1 ->
  CVNeuralNetLayers zero theta_1 phi_1 varphi_1 r phi_r theta_2 phi_2 varphi_2 a phi_a k
                    wires q
  = (cv_for (range (fewest_layers phi_1 varphi_1 r phi_r theta_2 phi_2 varphi_2 a phi_a k))
            (CVNeuralNetLayer_at zero theta_1 phi_1 varphi_1 r phi_r theta_2 phi_2 varphi_2
                                 a phi_a k wires) ;;;
     cv_raise IndexError)%cv q.
Proof.
  intros Hm. unfold CVNeuralNetLayers.
  set (m := fewest_layers phi_1 varphi_1 r phi_r theta_2 phi_2 varphi_2 a phi_a k) in *.
  assert (Hm0 : 0 <= m).
  { unfold m, fewest_layers.
    pose proof (len_nonneg phi_1). pose proof (len_nonneg varphi_1).
    pose proof (len_nonneg r). pose proof (len_nonneg phi_r).
    pose proof (len_nonneg theta_2). pose proof (len_nonneg phi_2).
    pose proof (len_nonneg varphi_2). pose proof (len_nonneg a).
    pose proof (len_nonneg phi_a). pose proof (len_nonneg k). lia. }
  assert (Hsplit : exists rest, range (len theta_1) = range m ++ m :: rest).
  { replace (len theta_1) with (Z.of_nat (Z.to_nat m + S (Z.to_nat (len theta_1 - m - 1))))
      by lia.
    rewrite range_of_nat, seq_app, map_app. cbn [seq map Nat.add].
    rewrite <- range_of_nat, !Z2Nat.id by lia. eexists. reflexivity. }
  destruct Hsplit as [rest ->]. rewrite cv_for_app. apply cv_bind_cong.
  - apply cv_for_ext. intros l q' Hl. apply In_range in Hl.
    apply layers_body_reads; fold m; lia.
  - intros _ q'. cbn [cv_for]. apply cv_bind_raises.
    apply layers_body_raises; fold m; lia.
Qed.

End CVFacts.

(** ** The empty wire sequence, and the pairs the meshes reach *)

(** X24.  On an empty sequence of wires and with static selectors,
    [Interferometer] queues nothing: it returns normally when [varphi] is
    empty too, and raises [IndexError] on [w[0]] otherwise. *)
Theorem X24_no_wires
    (W R G : Type) (zero : R) (theta phi varphi : list R) (mesh bs : pyval)
    (q : list (operation W R G)) :
  mesh <> PyVariable -> bs <> PyVariable ->
  Interferometer zero theta phi varphi (Many []) mesh bs q
  = (q, match varphi with [] => inr tt | _ :: _ => inl IndexError end).
Proof.
  intros Hmesh Hbs. unfold Interferometer.
  rewrite (isinstance_Variable_false _ Hbs), (isinstance_Variable_false _ Hmesh).
  change (len (@nil W) =? 1) with false. cbv iota.
  change (range (len (@nil W))) with (@nil Z).
  change (range (2 * len (@nil W) - 3)) with (@nil Z).
  unfold bind.
  destruct (py_eq_str mesh "rectangular"); [|destruct (py_eq_str mesh "triangular")];
    destruct varphi as [|p varphi]; reflexivity.
Qed.

(** X25.  Neither mesh skips a pair of neighbouring wires: for every
    position [k] from 0 to [N-2] some layer of the rectangular mesh and some
    layer of the triangular mesh places an element on [(w[k], w[k+1])]. *)
Theorem X25_every_neighbouring_pair_is_reached (N k : Z) :
  2 <= N -> 0 <= k <= N - 2 ->
  (exists l, In (l, k) (rectangular_placements N))
  /\ (exists l, In (l, k) (triangular_placements N)).
Proof.
  intros HN Hk. split.
  - exists (k mod 2). apply In_rectangular_placements. dlia.
  - exists (N - 2 - k). apply In_triangular_placements. split; [lia|].
    apply In_range3_2_iff.
    replace (Z.abs (N - 2 - k + 1 - (N - 1))) with k by lia.
    split; [lia|]. replace (k - k) with 0 by lia. reflexivity.
Qed.

(** ** The further properties on concrete inputs *)

Lemma draws_half_ok (wires : list Z) (t : nat) : draw_ok wires (draws_half t).
Proof.
  split; [|split]; try (vm_compute; congruence). apply Permutation_refl.
Defined.

Lemma X1_single_wire_witness :
  Interferometer (G:=gate_class) 0 [] [] [30; 31] (One 5)
                 (PyStr "triangular") (PyStr "clements") []
  = ([Rotation 30 (One 5)], inr tt).
Proof.
  apply (X1_single_wire Z Z gate_class 0 [] [] [30; 31] (One 5) 5
           (PyStr "triangular") (PyStr "clements") []).
  - left. reflexivity.
  - discriminate.
  - discriminate.
Defined.

Lemma X2_output_rotations_witness :
  2 <= len [0; 1]
  /\ Interferometer (G:=gate_class) 0 [10] [20] [30; 31; 32] (Many [0; 1])
                    (PyStr "rectangular") (PyStr "pennylane") []
     = ([Beamsplitter 10 20 (Many [0; 1]); Rotation 30 (Many [0]); Rotation 31 (Many [1])],
        inl IndexError).
Proof.
  split; [unfold len; cbn; lia|].
  destruct (X2_output_rotations Z Z gate_class 0 [10] [20] [30; 31; 32] [0; 1]
              (PyStr "rectangular") (PyStr "pennylane") 0 0 []) as [E _].
  - unfold len; cbn; lia.
  - vm_compute; discriminate.
  - vm_compute; discriminate.
  - discriminate.
  - discriminate.
  - rewrite E. reflexivity.
Defined.

Lemma X3_angles_run_out_witness :
  Z.min (len [10]) (len [20; 21]) < len (mesh_placements (PyStr "rectangular") (len [0; 1; 2]))
  /\ Interferometer (G:=gate_class) 0 [10] [20; 21] [30] (Many [0; 1; 2])
                    (PyStr "rectangular") (PyStr "pennylane") []
     = ([Beamsplitter 10 20 (Many [0; 1])], inl IndexError).
Proof.
  split; [vm_compute; reflexivity|].
  destruct (X3_angles_run_out Z Z gate_class 0 [10] [20; 21] [30] [0; 1; 2]
              (PyStr "rectangular") (PyStr "pennylane") 0 0 []) as [E _].
  - unfold len; cbn; lia.
  - discriminate.
  - discriminate.
  - left. discriminate.
  - vm_compute; reflexivity.
  - rewrite E. reflexivity.
Defined.

Lemma X4_clements_stray_rotation_witness :
  len [10] < len [20; 21]
  /\ Interferometer (G:=gate_class) 0 [10] [20; 21] [30] (Many [0; 1; 2])
                    (PyStr "rectangular") (PyStr "clements") []
     = ([Rotation 20 (Many [0]); Beamsplitter 10 0 (Many [0; 1]); Rotation 21 (Many [1])],
        inl IndexError).
Proof.
  split; [vm_compute; reflexivity|].
  rewrite (X4_clements_stray_rotation Z Z gate_class 0 [10] [20; 21] [30] [0; 1; 2]
             (PyStr "rectangular") 0 0 []).
  - reflexivity.
  - unfold len; cbn; lia.
  - discriminate.
  - vm_compute; reflexivity.
  - vm_compute; reflexivity.
Defined.

Lemma X5_unrecognised_beamsplitter_witness :
  Interferometer (G:=gate_class) 0 [10] [20] [30; 31] (Many [0; 1])
                 (PyStr "rectangular") (PyStr "standard") []
  = Interferometer 0 [10] [20] [30; 31] (Many [0; 1])
                   (PyStr "rectangular") (PyStr "pennylane") [].
Proof.
  apply (X5_unrecognised_beamsplitter_is_default Z Z gate_class 0 [10] [20] [30; 31]
           (Many [0; 1]) (PyStr "rectangular") (PyStr "standard") (PyStr "pennylane") []);
    discriminate.
Defined.

Lemma X6_layers_touch_each_wire_once_witness :
  In 0 (rectangular_layer 5 0) /\ In 2 (rectangular_layer 5 0)
  /\ 2 <= Z.abs (0 - 2).
Proof.
  split; [vm_compute; auto|]. split; [vm_compute; auto|].
  apply (X6_layers_touch_each_wire_once 5 0 0 2).
  - left. split; vm_compute; auto.
  - discriminate.
Defined.

Lemma X7_rectangular_starts_on_first_pair_witness :
  2 <= len [5; 6; 7]
  /\ exists rest,
       fst (Interferometer (G:=gate_class) 0 [10; 11; 12] [20; 21; 22] [30] (Many [5; 6; 7])
                           (PyStr "rectangular") (PyStr "pennylane") [])
       = element_ops 0 (PyStr "pennylane") (nth 0 [10; 11; 12] 0) (nth 0 [20; 21; 22] 0)
                     (nth 0 [5; 6; 7] 0) (nth 1 [5; 6; 7] 0) ++ rest.
Proof.
  split; [unfold len; cbn; lia|].
  apply (X7_rectangular_starts_on_first_pair Z Z gate_class 0 [10; 11; 12] [20; 21; 22] [30]
           [5; 6; 7] (PyStr "pennylane") 0 0).
  - unfold len; cbn; lia.
  - vm_compute; discriminate.
  - vm_compute; discriminate.
  - discriminate.
Defined.

Lemma X8_triangular_starts_at_the_bottom_witness :
  4 <= len [0; 1; 2; 3]
  /\ exists rest,
       fst (Interferometer (G:=gate_class) 0 [10; 11; 12; 13; 14; 15]
                           [20; 21; 22; 23; 24; 25] [30] (Many [0; 1; 2; 3])
                           (PyStr "triangular") (PyStr "pennylane") [])
       = mesh_ops 0 (PyStr "pennylane") [10; 11; 12; 13; 14; 15] [20; 21; 22; 23; 24; 25]
                  [0; 1; 2; 3] 0 0 0
                  [(0, len [0; 1; 2; 3] - 2); (1, len [0; 1; 2; 3] - 3);
                   (2, len [0; 1; 2; 3] - 4); (2, len [0; 1; 2; 3] - 2)]
         ++ rest.
Proof.
  split; [unfold len; cbn; lia|].
  apply (X8_triangular_starts_at_the_bottom Z Z gate_class 0 [10; 11; 12; 13; 14; 15]
           [20; 21; 22; 23; 24; 25] [30] [0; 1; 2; 3] (PyStr "pennylane") 0 0).
  - unfold len; cbn; lia.
  - vm_compute; discriminate.
  - vm_compute; discriminate.
  - discriminate.
Defined.

Lemma X9_range_multiple_of_wires_is_refused_witness :
  2 <= len [0; 1]
  /\ StronglyEntanglingLayer Z.eq_dec [[1; 2; 3]; [4; 5; 6]] (1 * len [0; 1]) CNOT
                             [0; 1] []
     = ([Rot 1 2 3 (One 0); Rot 4 5 6 (One 1)],
        inl (LibraryValueError OperationInit)).
Proof.
  split; [unfold len; cbn; lia|].
  destruct (X9_range_multiple_of_wires_is_refused Z Z gate_class Z.eq_dec
              [[1; 2; 3]; [4; 5; 6]] 1 CNOT [0; 1] 0 []) as [E _].
  - unfold len; cbn; lia.
  - split; [reflexivity|repeat constructor].
  - rewrite E. reflexivity.
Defined.

Lemma X10_entanglers_join_different_wires_witness :
  NoDup [0; 1; 2] /\ 1 mod len [0; 1; 2] <> 0
  /\ Forall (fun o : operation Z Z gate_class =>
               exists a b, o = Gate2 CNOT (Many [a; b])
                           /\ a <> b /\ In a [0; 1; 2] /\ In b [0; 1; 2])
            (entangler_ops 1 CNOT [0; 1; 2] 0).
Proof.
  assert (Hnd : NoDup [0; 1; 2]).
  { repeat constructor; cbn; intuition discriminate. }
  split; [exact Hnd|]. split; [vm_compute; discriminate|].
  apply (X10_entanglers_join_different_wires Z Z gate_class Z.eq_dec
           [[1; 2; 3]; [4; 5; 6]; [7; 8; 9]] 1 CNOT [0; 1; 2] 0 0 []).
  - unfold len; cbn; lia.
  - split; [reflexivity|repeat constructor].
  - exact Hnd.
  - vm_compute; discriminate.
Defined.

Lemma X12_too_few_weight_rows_witness :
  len [[1; 2; 3]] < len [0; 1; 2]
  /\ StronglyEntanglingLayer Z.eq_dec [[1; 2; 3]] 1 CNOT [0; 1; 2] []
     = ([Rot 1 2 3 (One 0)], inl IndexError).
Proof.
  split; [vm_compute; reflexivity|].
  destruct (X12_too_few_weight_rows Z Z gate_class Z.eq_dec [[1; 2; 3]] 1 CNOT
              [0; 1; 2] 0 [])
    as [E _].
  - unfold len; cbn; lia.
  - vm_compute; reflexivity.
  - repeat constructor.
  - rewrite E. reflexivity.
Defined.

Lemma X13_layers_compose_witness :
  StronglyEntanglingLayers Z.eq_dec
                           ([[[1; 2; 3]; [4; 5; 6]]] ++ [[[7; 8; 9]; [10; 11; 12]]])
                           (Some ([1] ++ [2])) CNOT [0; 1] []
  = bind (StronglyEntanglingLayers Z.eq_dec [[[1; 2; 3]; [4; 5; 6]]] (Some [1]) CNOT
                                   [0; 1])
         (fun _ => StronglyEntanglingLayers Z.eq_dec [[[7; 8; 9]; [10; 11; 12]]]
                                            (Some [2]) CNOT [0; 1]) [].
Proof.
  apply (X13_layers_compose Z Z gate_class Z.eq_dec [[[1; 2; 3]; [4; 5; 6]]]
           [[[7; 8; 9]; [10; 11; 12]]] [1] [2] CNOT [0; 1] []).
  reflexivity.
Defined.

Lemma X14_layers_on_too_few_wires_witness :
  len [0] < 2
  /\ StronglyEntanglingLayers Z.eq_dec [[[1; 2; 3]]] None CNOT [0] []
     = ([], inl (ValueError msg_sel_wires)).
Proof.
  split; [vm_compute; reflexivity|].
  apply (X14_layers_on_too_few_wires Z Z gate_class Z.eq_dec [[[1; 2; 3]]] None CNOT
           [0] []).
  vm_compute; reflexivity.
Defined.

Lemma X15_each_weight_used_once_witness :
  RandomLayer 5 [7; 8] (3 # 10) CNOT [RX; RY; RZ] [0; 1; 2] draws_half []
  = Some ([Gate1 RX 7 (One 0); Gate1 RX 8 (One 0)], inr tt)
  /\ exists ops,
       [Gate1 RX 7 (One 0); Gate1 RX 8 (One 0)] = [] ++ ops
       /\ gate1_params ops = [7; 8]
       /\ count is_Gate1 ops = len [7; 8].
Proof.
  split; [reflexivity|].
  apply (X15_each_weight_used_once Z Z gate_class 5 [7; 8] (3 # 10) CNOT [RX; RY; RZ]
           [0; 1; 2] draws_half [] [Gate1 RX 7 (One 0); Gate1 RX 8 (One 0)]).
  reflexivity.
Defined.

Lemma X16_gates_are_well_placed_witness :
  NoDup [0; 1; 2]
  /\ exists ops,
       [Gate1 RX 7 (One 0); Gate1 RX 8 (One 0)] = [] ++ ops
       /\ Forall (placed [7; 8] CNOT [RX; RY; RZ] [0; 1; 2]) ops.
Proof.
  assert (Hnd : NoDup [0; 1; 2]).
  { repeat constructor; cbn; intuition discriminate. }
  split; [exact Hnd|].
  apply (X16_gates_are_well_placed Z Z gate_class 5 [7; 8] (3 # 10) CNOT [RX; RY; RZ]
           [0; 1; 2] draws_half [] [Gate1 RX 7 (One 0); Gate1 RX 8 (One 0)] (inr tt)).
  - unfold len; cbn; lia.
  - exact Hnd.
  - apply draws_half_ok.
  - reflexivity.
Defined.

Lemma X17_ratio_one_never_returns_witness :
  2 <= len [0; 1]
  /\ RandomLayer 100 [7] 1 CNOT [RX; RY; RZ] [0; 1] draws_half [] = None.
Proof.
  split; [unfold len; cbn; lia|].
  apply (X17_ratio_one_never_returns Z Z gate_class 100 [7] 1 CNOT [RX; RY; RZ] [0; 1]
           draws_half []).
  - unfold len; cbn; lia.
  - discriminate.
  - vm_compute; discriminate.
  - intros t. reflexivity.
Defined.

Lemma X18_layers_use_each_weight_once_witness :
  RandomLayers 5 [[7]; [8]] (3 # 10) CNOT [RX; RY; RZ] [0; 1; 2] (fun _ => draws_half) []
  = Some ([Gate1 RX 7 (One 0); Gate1 RX 8 (One 0)], inr tt)
  /\ exists ops,
       [Gate1 RX 7 (One 0); Gate1 RX 8 (One 0)] = [] ++ ops
       /\ gate1_params ops = List.concat [[7]; [8]]
       /\ count is_Gate1 ops = len (List.concat [[7]; [8]]).
Proof.
  split; [reflexivity|].
  apply (X18_layers_use_each_weight_once Z Z gate_class 5 [[7]; [8]] (3 # 10) CNOT
           [RX; RY; RZ] [0; 1; 2] (fun _ => draws_half) []
           [Gate1 RX 7 (One 0); Gate1 RX 8 (One 0)]).
  reflexivity.
Defined.

Lemma X19_random_layers_on_too_few_wires_witness :
  len [0] < 2
  /\ RandomLayers 5 [[7]; [8]] (3 # 10) CNOT [RX; RY; RZ] [0] (fun _ => draws_half) []
     = Some ([], inl (ValueError msg_rl_wires)).
Proof.
  split; [vm_compute; reflexivity|].
  apply (X19_random_layers_on_too_few_wires Z Z gate_class 5 [[7]; [8]] (3 # 10) CNOT
           [RX; RY; RZ] [0] (fun _ => draws_half) []).
  vm_compute; reflexivity.
Defined.

Lemma X20_cv_layer_layout_witness :
  2 <= len [0; 1]
  /\ CVNeuralNetLayer (G:=gate_class) 0 [10] [20] [30; 31] [1; 2] [3; 4]
                      [11] [21] [32; 33] [5; 6] [7; 8] [9; 10] [0; 1] []
     = ([Op (Beamsplitter 10 20 (Many [0; 1]));
         Op (Rotation 30 (Many [0])); Op (Rotation 31 (Many [1]));
         Squeezing 1 3 (One 0); Squeezing 2 4 (One 1);
         Op (Beamsplitter 11 21 (Many [0; 1]));
         Op (Rotation 32 (Many [0])); Op (Rotation 33 (Many [1]));
         Displacement 5 7 (One 0); Displacement 6 8 (One 1);
         Kerr 9 (One 0); Kerr 10 (One 1)],
        inr tt).
Proof.
  split; [unfold len; cbn; lia|].
  destruct (X20_cv_layer_layout Z Z gate_class 0 [10] [20] [30; 31] [1; 2] [3; 4]
              [11] [21] [32; 33] [5; 6] [7; 8] [9; 10] [0; 1] 0 0 []) as [E _];
    try (vm_compute; discriminate).
  rewrite E. reflexivity.
Defined.

Lemma X21_cv_layer_single_mode_witness :
  1 <= len [30]
  /\ CVNeuralNetLayer (G:=gate_class) 0 [] [] [30] [1] [3] [] [] [32] [5] [7] [9] [0] []
     = ([Op (Rotation 30 (One 0)); Squeezing 1 3 (One 0); Op (Rotation 32 (One 0));
         Displacement 5 7 (One 0); Kerr 9 (One 0)],
        inr tt).
Proof.
  split; [vm_compute; discriminate|].
  apply (X21_cv_layer_single_mode Z Z gate_class 0 [] [] [30] [1] [3] [] [] [32] [5] [7] [9]
           0 0 []); vm_compute; discriminate.
Defined.

Lemma X22_cv_layers_follow_theta_1_witness :
  len [[10]] <= fewest_layers [[20]; [22]] [[30]; [31]] [[1]; [2]] [[3]; [4]] [[11]; [13]]
                              [[21]; [23]] [[32]; [33]] [[5]; [6]] [[7]; [8]] [[9]]
  /\ CVNeuralNetLayers (G:=gate_class) 0 [[10]] [[20]; [22]] [[30]; [31]] [[1]; [2]]
                       [[3]; [4]] [[11]; [13]] [[21]; [23]] [[32]; [33]] [[5]; [6]]
                       [[7]; [8]] [[9]] [0] []
     = ([Op (Rotation 30 (One 0)); Squeezing 1 3 (One 0); Op (Rotation 32 (One 0));
         Displacement 5 7 (One 0); Kerr 9 (One 0)],
        inr tt).
Proof.
  split; [vm_compute; discriminate|].
  rewrite (X22_cv_layers_follow_theta_1 Z Z gate_class 0 [[10]] [[20]; [22]] [[30]; [31]]
             [[1]; [2]] [[3]; [4]] [[11]; [13]] [[21]; [23]] [[32]; [33]] [[5]; [6]]
             [[7]; [8]] [[9]] [0] []).
  - reflexivity.
  - vm_compute; discriminate.
Defined.

Lemma X23_cv_layers_short_array_witness :
  fewest_layers [[20]; [22]] [[30]; [31]] [[1]; [2]] [[3]; [4]] [[11]; [13]]
                [[21]; [23]] [[32]; [33]] [[5]; [6]] [[7]; [8]] [[9]]
  < len [[10]; [12]]
  /\ CVNeuralNetLayers (G:=gate_class) 0 [[10]; [12]] [[20]; [22]] [[30]; [31]] [[1]; [2]]
                       [[3]; [4]] [[11]; [13]] [[21]; [23]] [[32]; [33]] [[5]; [6]]
                       [[7]; [8]] [[9]] [0] []
     = ([Op (Rotation 30 (One 0)); Squeezing 1 3 (One 0); Op (Rotation 32 (One 0));
         Displacement 5 7 (One 0); Kerr 9 (One 0)],
        inl IndexError).
Proof.
  split; [vm_compute; reflexivity|].
  rewrite (X23_cv_layers_short_array Z Z gate_class 0 [[10]; [12]] [[20]; [22]] [[30]; [31]]
             [[1]; [2]] [[3]; [4]] [[11]; [13]] [[21]; [23]] [[32]; [33]] [[5]; [6]]
             [[7]; [8]] [[9]] [0] []).
  - reflexivity.
  - vm_compute; reflexivity.
Defined.

Lemma X24_no_wires_witness :
  Interferometer (W:=Z) (G:=gate_class) 0 [10] [20] [30] (Many [])
                 (PyStr "triangular") (PyStr "pennylane") []
  = ([], inl IndexError).
Proof.
  apply (X24_no_wires Z Z gate_class 0 [10] [20] [30] (PyStr "triangular")
           (PyStr "pennylane") []); discriminate.
Defined.

Lemma X25_every_neighbouring_pair_is_reached_witness :
  (exists l, In (l, 1) (rectangular_placements 4))
  /\ (exists l, In (l, 1) (triangular_placements 4)).
Proof.
  apply (X25_every_neighbouring_pair_is_reached 4 1); lia.
Defined.
